(** * Connector template: cache engine, schema store, validators, orchestrator

    A shallow embedding of the Python sources under [mcp_server/] and the
    properties stated for them.

    Conventions of the embedding.
    - Python objects are values of [value]; a [dict] is an insertion-ordered
      association list with unique keys, [None] is [VNone].
    - Clock readings ([time.time()], [datetime.utcnow()]) are integers (one
      unit is one second); every read of the clock is an explicit argument,
      or a read of the clock oracle of the orchestrator.
    - Text is ASCII: [upper], [lower] and [strip] act on the ASCII letters
      and the ASCII white space only.
    - A method is a computation [M S A] over the state [S] of the object it
      belongs to.  It returns, raises (the state reached so far is kept) or
      does not terminate.  Only exceptions below [Exception] are modelled. *)

From stdpp Require Import gmap strings list fin_maps.
From stdpp Require Import pretty.
From Stdlib Require Import ZArith Lia Ascii DecimalString DecimalZ.

Local Open Scope Z_scope.

#[local] Set Warnings "-register-all".

(** ** Python values *)

Inductive value : Type :=
| VNone
| VBool (b : bool)
| VInt (n : Z)
| VStr (s : string)
| VList (xs : list value)
| VDict (d : list (string * value)).

(** Insertion-ordered dictionaries with string keys. *)
Section Dict.
Context {A : Type}.

Fixpoint dict_get (k : string) (d : list (string * A)) : option A :=
  match d with
  | [] => None
  | (k', v) :: d' => if String.eqb k k' then Some v else dict_get k d'
  end.

(** [k in d] *)
Definition dict_mem (k : string) (d : list (string * A)) : bool :=
  match dict_get k d with Some _ => true | None => false end.

(** [del d[k]] / [d.pop(k, None)] *)
Fixpoint dict_del (k : string) (d : list (string * A)) : list (string * A) :=
  match d with
  | [] => []
  | (k', v) :: d' =>
      if String.eqb k k' then dict_del k d' else (k', v) :: dict_del k d'
  end.

(** [d[k] = v]: an existing key keeps its position, a new key goes last. *)
Fixpoint dict_set (k : string) (v : A) (d : list (string * A)) : list (string * A) :=
  match d with
  | [] => [(k, v)]
  | (k', v') :: d' =>
      if String.eqb k k' then (k, v) :: d' else (k', v') :: dict_set k v d'
  end.

Definition dict_keys (d : list (string * A)) : list string := d.*1.
End Dict.

(** [bool(v)] *)
Definition truthy (v : value) : bool :=
  match v with
  | VNone => false
  | VBool b => b
  | VInt n => negb (n =? 0)
  | VStr s => negb (String.eqb s "")
  | VList xs => match xs with [] => false | _ => true end
  | VDict d => match d with [] => false | _ => true end
  end.

Definition type_name (v : value) : string :=
  match v with
  | VNone => "NoneType"
  | VBool _ => "bool"
  | VInt _ => "int"
  | VStr _ => "str"
  | VList _ => "list"
  | VDict _ => "dict"
  end.

(** ** Exceptions and the method monad *)

Inductive exn_class :=
  TypeError | AttributeError | ValueError | KeyError | OverflowError | Exception.

Record exn := Exn { exn_cls : exn_class; exn_str : string }.

Inductive outcome (S A : Type) : Type :=
| Ret (a : A) (s : S)
| Raise (e : exn) (s : S)
| Diverge.
Arguments Ret {S A} a s.
Arguments Raise {S A} e s.
Arguments Diverge {S A}.

Definition M (S A : Type) : Type := S → outcome S A.

#[global] Instance M_ret {S} : MRet (M S) := λ A a s, Ret a s.
#[global] Instance M_bind {S} : MBind (M S) := λ A B f m s,
  match m s with
  | Ret a s' => f a s'
  | Raise e s' => Raise e s'
  | Diverge => Diverge
  end.

Definition raise {S A} (e : exn) : M S A := λ s, Raise e s.
Definition gets {S A} (f : S → A) : M S A := λ s, Ret (f s) s.
Definition modify {S} (f : S → S) : M S unit := λ s, Ret () (f s).

(** [try: m  except Exception as e: h e] *)
Definition try_except {S A} (m : M S A) (h : exn → M S A) : M S A := λ s,
  match m s with
  | Raise e s' => h e s'
  | o => o
  end.

(** Run a method of a component object held in a field of the state. *)
Definition zoom {S T A} (proj : S → T) (upd : T → S → S) (m : M T A) : M S A := λ s,
  match m (proj s) with
  | Ret a t => Ret a (upd t s)
  | Raise e t => Raise e (upd t s)
  | Diverge => Diverge
  end.

(** The number a value stands for in arithmetic ([bool] is a subclass of
    [int]); [None] for a value that is no number. *)
Definition num_of (v : value) : option Z :=
  match v with
  | VInt t => Some t
  | VBool b => Some (Z.b2z b)
  | _ => None
  end.

(** [x > ttl] for a number [x]: only numbers compare. *)
Definition py_gt {S} (x : Z) (ttl : value) : M S bool :=
  match num_of ttl with
  | Some t => mret (t <? x)
  | None => raise (Exn TypeError
           ("'>' not supported between instances of 'float' and '" +:+ type_name ttl +:+ "'"))
  end.

(** ** The cache engine ([base/cache.py], class [TTLCache]) *)

Module TTLCache.

Record t := mk {
  max_size : Z;
  default_ttl : Z;
  _cache : list (string * value);      (* OrderedDict: front is the LRU end *)
  _timestamps : gmap string Z
}.

Definition __init__ (max_size default_ttl : Z) : t := mk max_size default_ttl [] ∅.

Definition with_cache (f : list (string * value) → list (string * value)) (c : t) : t :=
  mk (max_size c) (default_ttl c) (f (_cache c)) (_timestamps c).
Definition with_timestamps (f : gmap string Z → gmap string Z) (c : t) : t :=
  mk (max_size c) (default_ttl c) (_cache c) (f (_timestamps c)).

(** The TTL in force for [key]: the engine default, unless the stored
    object is a dict that has a ['ttl'] entry. *)
Definition entry_ttl (c : t) (key : string) : value :=
  match dict_get key (_cache c) with
  | Some (VDict d) =>
      match dict_get "ttl" d with
      | Some ttl => ttl
      | None => VInt (default_ttl c)
      end
  | _ => VInt (default_ttl c)
  end.

Definition _is_expired (key : string) (now : Z) : M t bool := λ c,
  match _timestamps c !! key with
  | None => Ret true c
  | Some ts => py_gt (now - ts) (entry_ttl c key) c
  end.

(** The first loop of [_evict_expired]: the keys found expired.  The order
    of the scan shows only in which entry a [TypeError] names, when several
    entries carry a TTL that is no number. *)
Fixpoint expired_keys (c : t) (current_time : Z) (items : list (string * Z))
  : M t (list string) :=
  match items with
  | [] => mret []
  | (key, timestamp) :: rest =>
      b ← py_gt (current_time - timestamp) (entry_ttl c key);
      ks ← expired_keys c current_time rest;
      mret (if b : bool then key :: ks else ks)
  end.

Definition pop_key (c : t) (key : string) : t :=
  with_timestamps (delete key) (with_cache (dict_del key) c).

Definition _evict_expired (current_time : Z) : M t unit := λ c,
  (ks ← expired_keys c current_time (map_to_list (_timestamps c));
   modify (λ c, foldl pop_key c ks)) c.

Definition _evict_lru : M t unit := λ c,
  match _cache c with
  | [] => Ret () c
  | (key, _) :: rest => Ret () (with_timestamps (delete key) (with_cache (λ _, rest) c))
  end.

(** [while len(self._cache) >= self.max_size: self._evict_lru()].
    Each turn on a non-empty cache removes one entry, so [length _cache]
    turns empty it; a turn on the empty cache changes nothing, and a loop
    that is still running then runs forever. *)
Fixpoint evict_while (fuel : nat) : M t unit := λ c,
  if max_size c <=? Z.of_nat (length (_cache c)) then
    match fuel with
    | O => Diverge
    | S fuel' => (_evict_lru ≫= λ _, evict_while fuel') c
    end
  else Ret () c.

Definition get (key : string) (now : Z) : M t value := λ c,
  if negb (dict_mem key (_cache c)) then Ret VNone c
  else
    (expired ← _is_expired key now;
     if expired : bool then mret VNone
     else
       value ← gets (λ c, default VNone (dict_get key (_cache c)));
       modify (with_cache (λ d, dict_set key value (dict_del key d)));;
       mret value) c.

(** What [set] stores: the value itself, or a wrapper naming the TTL. *)
Definition cache_value (val : value) (ttl : option Z) : value :=
  match ttl with
  | Some ttl => VDict [("value", val); ("ttl", VInt ttl)]
  | None => val
  end.

Definition set (key : string) (val : value) (ttl : option Z)
    (sweep_time stamp_time : Z) : M t unit :=
  modify (λ c, if dict_mem key (_cache c) then with_cache (dict_del key) c else c);;
  _evict_expired sweep_time;;
  (λ c, evict_while (length (_cache c)) c);;
  modify (with_cache (dict_set key (cache_value val ttl)));;
  modify (with_timestamps (insert key stamp_time)).

Definition delete (key : string) : M t bool := λ c,
  if dict_mem key (_cache c) then
    match _timestamps c !! key with
    | Some _ => Ret true (with_timestamps (base.delete key) (with_cache (dict_del key) c))
    | None => Raise (Exn KeyError ("'" +:+ key +:+ "'")) (with_cache (dict_del key) c)
    end
  else Ret false c.

Definition clear : M t unit :=
  modify (λ c, mk (max_size c) (default_ttl c) [] ∅).

Definition size (now : Z) : M t Z :=
  _evict_expired now;;
  gets (λ c, Z.of_nat (length (_cache c))).

Definition keys (now : Z) : M t (list string) :=
  _evict_expired now;;
  gets (λ c, dict_keys (_cache c)).

(** Entries whose TTL, if they name one, is a number: the sweep cannot
    raise on them. *)
Definition numeric_entry (v : value) : Prop :=
  match v with
  | VDict d =>
      match dict_get "ttl" d with
      | Some ttl => is_Some (num_of ttl)
      | None => True
      end
  | _ => True
  end.

Definition numeric (c : t) : Prop := Forall (λ kv, numeric_entry kv.2) (_cache c).

(** A sequence of [set] calls, each with its two clock readings. *)
Record set_call := SetCall {
  sc_key : string;
  sc_val : value;
  sc_ttl : option Z;
  sc_sweep : Z;
  sc_stamp : Z
}.

Fixpoint set_all (calls : list set_call) : M t unit :=
  match calls with
  | [] => mret ()
  | x :: rest =>
      set (sc_key x) (sc_val x) (sc_ttl x) (sc_sweep x) (sc_stamp x);;
      set_all rest
  end.

End TTLCache.


(** ** Text ([str] methods, on ASCII)

    A string stands for a [str] whose characters are all below 128
    ([ascii_text]).  On such text [str.upper] changes the letters a-z only
    and [str.strip] removes the ten characters of [is_space] only; what the
    two do to other characters is outside this development, and every
    statement that depends on [upper] or [strip] assumes [ascii_text]. *)

Definition is_ascii (a : ascii) : bool := (N_of_ascii a <? 128)%N.

Fixpoint ascii_text (s : string) : bool :=
  match s with
  | EmptyString => true
  | String a s' => is_ascii a && ascii_text s'
  end.

Definition is_lower (a : ascii) : bool :=
  let n := N_of_ascii a in (97 <=? n)%N && (n <=? 122)%N.

Definition is_upper (a : ascii) : bool :=
  let n := N_of_ascii a in (65 <=? n)%N && (n <=? 90)%N.

Definition upper_char (a : ascii) : ascii :=
  if is_lower a then ascii_of_N (N_of_ascii a - 32) else a.

Definition lower_char (a : ascii) : ascii :=
  if is_upper a then ascii_of_N (N_of_ascii a + 32) else a.

(** The characters [str.strip()] removes: tab, line feed, vertical tab, form
    feed, carriage return, the four separators 0x1c to 0x1f, and space. *)
Definition is_space (a : ascii) : bool :=
  let n := N_of_ascii a in
  ((9 <=? n)%N && (n <=? 13)%N) || ((28 <=? n)%N && (n <=? 32)%N).

Fixpoint upper (s : string) : string :=
  match s with
  | EmptyString => EmptyString
  | String a s' => String (upper_char a) (upper s')
  end.

Fixpoint lower (s : string) : string :=
  match s with
  | EmptyString => EmptyString
  | String a s' => String (lower_char a) (lower s')
  end.

Fixpoint lstrip (s : string) : string :=
  match s with
  | EmptyString => EmptyString
  | String a s' => if is_space a then lstrip s' else s
  end.

Fixpoint rstrip (s : string) : string :=
  match s with
  | EmptyString => EmptyString
  | String a s' =>
      match rstrip s' with
      | EmptyString => if is_space a then EmptyString else String a EmptyString
      | r => String a r
      end
  end.

Definition strip (s : string) : string := rstrip (lstrip s).

(** [s.startswith(p)] *)
Fixpoint startswith (p s : string) : bool :=
  match p, s with
  | EmptyString, _ => true
  | String a p', String b s' => Ascii.eqb a b && startswith p' s'
  | String _ _, EmptyString => false
  end.

(** [needle in hay] *)
Fixpoint contains (needle hay : string) : bool :=
  startswith needle hay ||
  match hay with
  | EmptyString => false
  | String _ hay' => contains needle hay'
  end.

(** [w] occurs in [s]; [kw] occurs in [s] in some mix of cases. *)
Definition occurs_in (w s : string) : Prop := ∃ pre post, s = pre +:+ w +:+ post.
Definition occurs_in_any_case (kw s : string) : Prop := ∃ w, upper w = kw ∧ occurs_in w s.

(** ** Dynamic typing helpers *)

(** [obj.get(key, default)]: only a dict has [get]. *)
Definition py_get {S} (obj : value) (key : string) (dflt : value) : M S value :=
  match obj with
  | VDict d => mret (default dflt (dict_get key d))
  | v => raise (Exn AttributeError
                  ("'" +:+ type_name v +:+ "' object has no attribute 'get'"))
  end.

(** The receiver of a [str] method such as [strip], [upper], [startswith]. *)
Definition py_str {S} (method : string) (v : value) : M S string :=
  match v with
  | VStr s => mret s
  | v => raise (Exn AttributeError
                  ("'" +:+ type_name v +:+ "' object has no attribute '" +:+ method +:+ "'"))
  end.

(** [v > m] for an integer [m]. *)
Definition py_value_gt {S} (v : value) (m : Z) : M S bool :=
  match num_of v with
  | Some n => mret (m <? n)
  | None => raise (Exn TypeError
              ("'>' not supported between instances of '" +:+ type_name v +:+ "' and 'int'"))
  end.

(** ** The SQL connector's validator ([datasources/mysql.py]) *)

Module MySQLDataSource.

Definition dangerous_keywords : list string :=
  ["DROP"; "DELETE"; "INSERT"; "UPDATE"; "ALTER"; "CREATE";
   "TRUNCATE"; "REPLACE"; "LOAD_FILE"; "INTO OUTFILE";
   "INTO DUMPFILE"; "EXEC"; "EXECUTE"; "CALL"; "PROCEDURE"].

Definition validate_query {S} (max_query_limit : Z)
    (query_params : list (string * value)) : M S bool :=
  q ← py_str "strip" (default (VStr "") (dict_get "query" query_params));
  let query := upper (strip q) in
  if negb (startswith "SELECT" query) then mret false
  else if existsb (λ keyword, contains keyword query) dangerous_keywords then mret false
  else
    let limit := default (VInt 100) (dict_get "limit" query_params) in
    over ← py_value_gt limit max_query_limit;
    if over : bool then mret false else mret true.

End MySQLDataSource.

(** ** The REST connector's validator ([datasources/rest_api.py]) *)

Module RestAPIDataSource.

Definition safe_methods : list string := ["GET"; "HEAD"; "OPTIONS"].

Definition validate_query {S} (max_query_limit : Z)
    (query_params : list (string * value)) : M S bool :=
  let endpoint := default (VStr "") (dict_get "endpoint" query_params) in
  m ← py_str "upper" (default (VStr "GET") (dict_get "method" query_params));
  let method := upper m in
  if negb (truthy endpoint) then mret false
  else if negb (existsb (String.eqb method) safe_methods) then mret false
  else
    let limit := default (VInt 100) (dict_get "limit" query_params) in
    over ← py_value_gt limit max_query_limit;
    if over : bool then mret false
    else
      e ← py_str "startswith" endpoint;
      let endpoint := if negb (startswith "/" e) then "/" +:+ e else e in
      if contains ".." endpoint || contains "//" endpoint then mret false
      else mret true.

End RestAPIDataSource.

(** ** The data source contract ([base/datasource.py]) *)

(** The abstract methods and the attributes set by [__init__], over the
    state [D] of a connector object.  [__init__] reads the three integer
    settings from [config], with defaults 3600, 300 and 1000. *)
Class MCPDataSource (D : Type) := {
  class_name : D → string;
  name : D → string;
  config : D → list (string * value);
  connected : D → bool;
  schema_cache_ttl : D → Z;
  query_cache_ttl : D → Z;
  max_query_limit : D → Z;
  connect : M D bool;
  disconnect : M D bool;
  get_schema : M D value;
  query : list (string * value) → M D value;
  validate_query : list (string * value) → M D bool
}.

(** A call of one of the abstract methods, as seen from outside the
    connector; [Validate] records the answer ([None] if it raised). *)
Inductive call :=
| Connect
| Disconnect
| GetSchema
| Query (query_params : list (string * value))
| Validate (query_params : list (string * value)) (answer : option bool).

(** A connector object together with the record of the calls made on it. *)
Record obj (D : Type) := Obj { self : D; calls : list call }.
Arguments Obj {D} self calls.
Arguments self {D} o.
Arguments calls {D} o.

(** Call a method on the object and record the call. *)
Definition invoke {D A} (c : option A → call) (m : M D A) : M (obj D) A := λ o,
  match m (self o) with
  | Ret a d => Ret a (Obj d (calls o ++ [c (Some a)]))
  | Raise e d => Raise e (Obj d (calls o ++ [c None]))
  | Diverge => Diverge
  end.

(** In a record of calls, every query comes after a validation of the same
    request that answered [True]. *)
Definition validated_first (log : list call) : Prop :=
  ∀ i p, log !! i = Some (Query p) →
         ∃ j, (j < i)%nat ∧ log !! j = Some (Validate p (Some true)).

(** The state a computation leaves, when it ends. *)
Definition final {S A} (o : outcome S A) : option S :=
  match o with
  | Ret _ s => Some s
  | Raise _ s => Some s
  | Diverge => None
  end.

Section DataSource.
Context {D : Type} `{MCPDataSource D}.
Variable isoformat : Z → string.

(** The view of a source that [list_data_sources] publishes. *)
Definition get_schema_metadata (utcnow : Z) (d : D) : value :=
  VDict [("data_source", VStr (name d));
         ("generated_at", VStr (isoformat utcnow));
         ("cache_ttl", VInt (schema_cache_ttl d));
         ("max_query_limit", VInt (max_query_limit d));
         ("config", VDict (filter (λ kv, negb (contains "password" (lower kv.1)))
                             (config d)))].

Definition health_probe : list (string * value) :=
  [("query", VStr "SELECT 1"); ("limit", VInt 1)].

(** [MCPDataSource.health_check], the method inherited by connectors that
    do not define their own; it reads the clock once, in whichever branch
    it leaves by. *)
Definition health_check (utcnow : Z) : M (obj D) value :=
  try_except
    (is_connected ← gets (λ o, connected (self o));
     (if is_connected : bool then mret ()
      else invoke (λ _, Connect) connect;; mret ());;
     invoke (λ _, Query health_probe) (query health_probe);;
     o ← gets id;
     mret (VDict [("status", VStr "healthy");
                  ("data_source", VStr (name (self o)));
                  ("connected", VBool (connected (self o)));
                  ("timestamp", VStr (isoformat utcnow))]))
    (λ e,
       o ← gets id;
       mret (VDict [("status", VStr "unhealthy");
                    ("data_source", VStr (name (self o)));
                    ("error", VStr (exn_str e));
                    ("timestamp", VStr (isoformat utcnow))])).
End DataSource.

(** ** The schema store ([base/schema.py], class [SchemaManager])

    The directory is a finite map from paths to the JSON documents the files
    hold.  The snapshots are the values of [value]: dicts with string keys,
    lists, strings, integers, booleans and [None].  [json.dump] writes such
    a value whole and [json.load] gives it back; a value [json.dump] cannot
    write is outside this development.  The directory is taken to be
    writable.  Paths are compared as strings: that is how files are told
    apart for source names without a slash ([plain_name]) on a file system
    that compares names byte by byte; the statements that tell the files of
    two sources apart assume it.  The text form of a timestamp is a
    parameter: [isoformat] and [fromisoformat]. *)

Module SchemaManager.
Section SchemaManager.
Variable isoformat : Z → string.
Variable fromisoformat : string → option Z.
Variable dumps : option nat → value → string.

Fixpoint ends_with_slash (s : string) : bool :=
  match s with
  | EmptyString => false
  | String a EmptyString => Ascii.eqb a "/"
  | String _ s' => ends_with_slash s'
  end.

(** [os.path.join(dir, file)] on POSIX. *)
Definition path_join (dir file : string) : string :=
  if startswith "/" file then file
  else if String.eqb dir "" || ends_with_slash dir then dir +:+ file
  else dir +:+ "/" +:+ file.

(** A source name that names a file of the directory itself. *)
Definition plain_name (data_source_name : string) : bool :=
  negb (contains "/" data_source_name).

Definition _get_schema_file_path (cache_dir data_source_name : string) : string :=
  path_join cache_dir (data_source_name +:+ "_schema.json").

Definition _get_metadata_file_path (cache_dir data_source_name : string) : string :=
  path_join cache_dir (data_source_name +:+ "_metadata.json").

(** [datetime.fromisoformat(v)] *)
Definition py_fromisoformat {S} (v : value) : M S Z :=
  match v with
  | VStr s =>
      match fromisoformat s with
      | Some t => mret t
      | None => raise (Exn ValueError ("Invalid isoformat string: '" +:+ s +:+ "'"))
      end
  | _ => raise (Exn TypeError "fromisoformat: argument must be str")
  end.

(** A [timedelta] holds at most 999999999 days, either way. *)
Definition fits_timedelta (seconds : Z) : bool :=
  (-999999999 <=? seconds / 86400) && (seconds / 86400 <=? 999999999).

(** [timedelta(seconds=v)], in seconds *)
Definition timedelta_seconds {S} (v : value) : M S Z :=
  match num_of v with
  | Some n =>
      if fits_timedelta n then mret n
      else raise (Exn OverflowError
                    ("days=" +:+ pretty (n / 86400) +:+ "; must have magnitude <= 999999999"))
  | None => raise (Exn TypeError
              ("unsupported type for timedelta seconds component: " +:+ type_name v))
  end.

Definition get_schema (cache_dir data_source_name : string) (utcnow : Z)
  : M (gmap string value) value := λ fs,
  let schema_file := _get_schema_file_path cache_dir data_source_name in
  let metadata_file := _get_metadata_file_path cache_dir data_source_name in
  match fs !! schema_file, fs !! metadata_file with
  | Some schema, Some metadata =>
      try_except
        (g ← py_get metadata "generated_at" (VStr "");
         generated_at ← py_fromisoformat g;
         ttl ← py_get metadata "ttl_seconds" (VInt 3600);
         ttl_seconds ← timedelta_seconds ttl;
         if ttl_seconds <? utcnow - generated_at then mret VNone
         else mret schema)
        (λ _, mret VNone) fs
  | _, _ => Ret VNone fs
  end.

(** The sidecar written next to a payload. *)
Definition metadata_document (data_source_name : string) (schema ttl : value)
    (utcnow : Z) : value :=
  VDict [("data_source", VStr data_source_name);
         ("generated_at", VStr (isoformat utcnow));
         ("ttl_seconds", ttl);
         ("schema_size", VInt (Z.of_nat (String.length (dumps None schema))));
         ("version", VStr "1.0")].

Definition save_schema (cache_dir data_source_name : string) (schema : value)
    (utcnow : Z) : M (gmap string value) unit :=
  let schema_file := _get_schema_file_path cache_dir data_source_name in
  let metadata_file := _get_metadata_file_path cache_dir data_source_name in
  try_except
    (modify (insert schema_file schema);;
     header ← py_get schema "metadata" (VDict []);
     ttl ← py_get header "cache_ttl" (VInt 3600);
     modify (insert metadata_file
               (metadata_document data_source_name schema ttl utcnow)))
    (λ e, raise (Exn Exception
                   ("Failed to save schema for " +:+ data_source_name +:+ ": "
                    +:+ exn_str e))).

Definition is_schema_stale (cache_dir data_source_name : string) (utcnow : Z)
  : M (gmap string value) bool :=
  cached_schema ← get_schema cache_dir data_source_name utcnow;
  mret (match cached_schema with VNone => true | _ => false end).

Definition invalidate_schema (cache_dir data_source_name : string)
  : M (gmap string value) unit :=
  modify (delete (_get_schema_file_path cache_dir data_source_name));;
  modify (delete (_get_metadata_file_path cache_dir data_source_name)).
End SchemaManager.
End SchemaManager.

(** ** The cache manager ([base/cache.py], class [CacheManager]) *)

Module CacheManager.

Record t := mk {
  query_cache : TTLCache.t;
  schema_cache : TTLCache.t;
  metadata_cache : TTLCache.t;
  stats : gmap string Z
}.

(** [CacheManager()], as the server constructs it: no configuration. *)
Definition __init__ : t :=
  mk (TTLCache.__init__ 1000 300) (TTLCache.__init__ 100 3600)
     (TTLCache.__init__ 500 1800)
     (list_to_map [("query_hits", 0); ("query_misses", 0);
                   ("schema_hits", 0); ("schema_misses", 0);
                   ("metadata_hits", 0); ("metadata_misses", 0)]).

Inductive tier := QueryTier | SchemaTier | MetadataTier.

Definition _get_cache {S} (cache_type : string) : M S tier :=
  if String.eqb cache_type "query" then mret QueryTier
  else if String.eqb cache_type "schema" then mret SchemaTier
  else if String.eqb cache_type "metadata" then mret MetadataTier
  else raise (Exn ValueError ("Unknown cache type: " +:+ cache_type)).

Definition engine (which : tier) (m : t) : TTLCache.t :=
  match which with
  | QueryTier => query_cache m
  | SchemaTier => schema_cache m
  | MetadataTier => metadata_cache m
  end.

Definition with_engine (which : tier) (c : TTLCache.t) (m : t) : t :=
  match which with
  | QueryTier => mk c (schema_cache m) (metadata_cache m) (stats m)
  | SchemaTier => mk (query_cache m) c (metadata_cache m) (stats m)
  | MetadataTier => mk (query_cache m) (schema_cache m) c (stats m)
  end.

Definition bump (counter : string) (m : t) : t :=
  mk (query_cache m) (schema_cache m) (metadata_cache m)
     (alter (λ n, n + 1) counter (stats m)).

Definition get (key cache_type : string) (now : Z) : M t value :=
  cache ← _get_cache cache_type;
  value ← zoom (engine cache) (with_engine cache) (TTLCache.get key now);
  modify (bump (match value with
                | VNone => cache_type +:+ "_misses"
                | _ => cache_type +:+ "_hits"
                end));;
  mret value.

Definition set (key : string) (val : value) (ttl : option Z) (cache_type : string)
    (sweep_time stamp_time : Z) : M t unit :=
  cache ← _get_cache cache_type;
  zoom (engine cache) (with_engine cache)
       (TTLCache.set key val ttl sweep_time stamp_time).

Definition delete (key cache_type : string) : M t bool :=
  cache ← _get_cache cache_type;
  zoom (engine cache) (with_engine cache) (TTLCache.delete key).

(** [clear(cache_type=None)]: [None] and the empty string are both false. *)
Definition clear (cache_type : option string) : M t unit :=
  if match cache_type with
     | Some s => negb (String.eqb s "")
     | None => false
     end
  then
    cache ← _get_cache (default "" cache_type);
    zoom (engine cache) (with_engine cache) TTLCache.clear
  else
    zoom query_cache (with_engine QueryTier) TTLCache.clear;;
    zoom schema_cache (with_engine SchemaTier) TTLCache.clear;;
    zoom metadata_cache (with_engine MetadataTier) TTLCache.clear.

Definition reset_stats : M t unit :=
  modify (λ m, mk (query_cache m) (schema_cache m) (metadata_cache m)
                  ((λ _, 0) <$> stats m)).

End CacheManager.

(** ** The orchestrator ([base/server.py], class [MCPServer])

    [json.dumps] (with its [indent]) and the built-in [hash] are parameters;
    the [n]-th read of the clock gives [clock n].  A tool is modelled by a
    function of the name of the source it is registered for, and the tool
    [health_check] runs the method the sources inherit from the base class. *)

Module MCPServer.
Section MCPServer.
Context {D : Type} `{MCPDataSource D}.
Variable isoformat : Z → string.
Variable dumps : option nat → value → string.
Variable py_hash : string → Z.
Variable clock : nat → Z.
Variable fromisoformat : string → option Z.

Record t := mk {
  data_sources : list (string * obj D);
  schema_files : gmap string value;       (* the directory of [schema_manager] *)
  cache_manager : CacheManager.t;
  clock_reads : nat
}.

Definition cache_dir : string := "resources".

Definition __init__ : t := mk [] ∅ CacheManager.__init__ 0.

Definition with_data_sources (f : list (string * obj D) → list (string * obj D)) (w : t) : t :=
  mk (f (data_sources w)) (schema_files w) (cache_manager w) (clock_reads w).
Definition with_schema_files (fs : gmap string value) (w : t) : t :=
  mk (data_sources w) fs (cache_manager w) (clock_reads w).
Definition with_cache_manager (m : CacheManager.t) (w : t) : t :=
  mk (data_sources w) (schema_files w) m (clock_reads w).

Definition utcnow : M t Z := λ w,
  Ret (clock (clock_reads w))
      (mk (data_sources w) (schema_files w) (cache_manager w) (S (clock_reads w))).

(** Run a method of the source registered under [name]. *)
Definition on_source {A} (name : string) (m : M (obj D) A) : M t A := λ w,
  match dict_get name (data_sources w) with
  | None => Raise (Exn KeyError ("'" +:+ name +:+ "'")) w
  | Some o =>
      match m o with
      | Ret a o' => Ret a (with_data_sources (dict_set name o') w)
      | Raise e o' => Raise e (with_data_sources (dict_set name o') w)
      | Diverge => Diverge
      end
  end.

(** The calls recorded so far on the source registered under [name]. *)
Definition calls_on (name : string) (w : t) : list call :=
  match dict_get name (data_sources w) with
  | Some o => calls o
  | None => []
  end.

Definition schema_manager {A} (m : M (gmap string value) A) : M t A :=
  zoom schema_files with_schema_files m.

Definition caches {A} (m : M CacheManager.t A) : M t A :=
  zoom cache_manager with_cache_manager m.

Definition add_data_source (name : string) (data_source : D) : M t unit :=
  modify (with_data_sources (dict_set name (Obj data_source []))).

Definition error_json (msg : string) : value :=
  VStr (dumps None (VDict [("error", VStr msg)])).

(** The tool [query_<name>]. *)
Definition query_data_source (name : string) (query_text : string) (limit : Z)
  : M t value :=
  let query_params := [("query", VStr query_text); ("limit", VInt limit)] in
  valid ← on_source name
            (invoke (Validate query_params) (validate_query query_params));
  if negb valid then mret (error_json "Invalid query parameters")
  else
    let cache_key := name +:+ ":" +:+ pretty (py_hash query_text) +:+ ":" +:+ pretty limit in
    now ← utcnow;
    cached_result ← caches (CacheManager.get cache_key "query" now);
    if truthy cached_result then mret cached_result
    else
      try_except
        (results ← on_source name
                     (invoke (λ _, Query query_params) (query query_params));
         let result_json := VStr (dumps (Some 2%nat) results) in
         ttl ← on_source name (gets (λ o, query_cache_ttl (self o)));
         sweep_time ← utcnow;
         stamp_time ← utcnow;
         caches (CacheManager.set cache_key result_json (Some ttl) "query"
                   sweep_time stamp_time);;
         mret result_json)
        (λ e, mret (error_json (exn_str e))).





(** The tool [health_check]: every source, by its inherited method. *)
Fixpoint health_each (names : list string) (health_status : list (string * value))
  : M t (list (string * value)) :=
  match names with
  | [] => mret health_status
  | name :: rest =>
      now ← utcnow;
      status ← on_source name (health_check isoformat now);
      health_each rest (dict_set name status health_status)
  end.

Definition health_check_tool : M t value :=
  names ← gets (λ w, dict_keys (data_sources w));
  health_status ← health_each names [];
  mret (VStr (dumps (Some 2%nat) (VDict health_status))).

(** The tool [list_data_sources]. *)
Fixpoint list_each (names : list string) : M t (list value) :=
  match names with
  | [] => mret []
  | name :: rest =>
      now ← utcnow;
      source ← on_source name
        (gets (λ o, VDict [("name", VStr name);
                           ("type", VStr (class_name (self o)));
                           ("connected", VBool (connected (self o)));
                           ("config", get_schema_metadata isoformat now (self o))]));
      sources ← list_each rest;
      mret (source :: sources)
  end.

Definition list_data_sources : M t value :=
  names ← gets (λ w, dict_keys (data_sources w));
  sources ← list_each names;
  mret (VStr (dumps (Some 2%nat) (VList sources))).

(** The resource [<name>://schema]. *)
Definition data_source_schema (name : string) : M t value :=
  now ← utcnow;
  cached_schema ← schema_manager
                    (SchemaManager.get_schema fromisoformat cache_dir name now);
  if truthy cached_schema then mret (VStr (dumps None cached_schema))
  else
    try_except
      (schema ← on_source name (invoke (λ _, GetSchema) get_schema);
       now ← utcnow;
       schema_manager (SchemaManager.save_schema isoformat dumps cache_dir name schema now);;
       mret (VStr (dumps None schema)))
      (λ e, mret (error_json (exn_str e))).

(** [stop]: disconnect every source, whatever the others did. *)
Fixpoint stop_each (names : list string) : M t unit :=
  match names with
  | [] => mret ()
  | name :: rest =>
      try_except
        (on_source name (invoke (λ _, Disconnect) disconnect);; mret ())
        (λ _, mret ());;
      stop_each rest
  end.

Definition stop : M t unit :=
  names ← gets (λ w, dict_keys (data_sources w));
  stop_each names.
End MCPServer.
End MCPServer.

(** ** A scripted connector

    A stand-in for a real backend: its schema call gives a fixed answer or
    raises, its query call counts the invocations and gives fixed rows, and
    it validates like the SQL connector. *)

Record FakeSource := Fake {
  fake_name : string;
  fake_config : list (string * value);
  fake_connected : bool;
  fake_schema : exn + value;
  fake_rows : value;
  fake_queries : nat
}.

#[global] Instance FakeSource_contract : MCPDataSource FakeSource := {|
  class_name := λ _, "FakeSource";
  name := fake_name;
  config := fake_config;
  connected := fake_connected;
  schema_cache_ttl := λ d, default 3600 (dict_get "schema_cache_ttl" (fake_config d) ≫= num_of);
  query_cache_ttl := λ d, default 300 (dict_get "query_cache_ttl" (fake_config d) ≫= num_of);
  max_query_limit := λ d, default 1000 (dict_get "max_query_limit" (fake_config d) ≫= num_of);
  connect := λ d,
    Ret true (Fake (fake_name d) (fake_config d) true (fake_schema d) (fake_rows d)
                   (fake_queries d));
  disconnect := λ d,
    Ret true (Fake (fake_name d) (fake_config d) false (fake_schema d) (fake_rows d)
                   (fake_queries d));
  get_schema := λ d,
    match fake_schema d with
    | inl e => Raise e d
    | inr schema => Ret schema d
    end;
  query := λ _ d,
    Ret (fake_rows d)
        (Fake (fake_name d) (fake_config d) (fake_connected d) (fake_schema d)
              (fake_rows d) (S (fake_queries d)));
  validate_query := λ query_params d,
    MySQLDataSource.validate_query
      (default 1000 (dict_get "max_query_limit" (fake_config d) ≫= num_of))
      query_params d
|}.

(** ** Concrete parameters, to run the definitions

    [json_dumps] is [json.dumps] on the values above ([ensure_ascii], the
    default separators); [epoch_isoformat] writes a timestamp as its number
    of seconds; [length_hash] is one possible [hash]. *)

Definition hex_digit (n : N) : ascii :=
  ascii_of_N (if (n <? 10)%N then 48 + n else 87 + n).

Definition double_quote : ascii := ascii_of_N 34.

Definition json_escape_char (a : ascii) : string :=
  let n := N_of_ascii a in
  if (n =? 34)%N then "\" +:+ String double_quote EmptyString
  else if (n =? 92)%N then "\\"
  else if (n =? 10)%N then "\n"
  else if (n =? 13)%N then "\r"
  else if (n =? 9)%N then "\t"
  else if (n =? 8)%N then "\b"
  else if (n =? 12)%N then "\f"
  else if ((32 <=? n)%N && (n <=? 126)%N) then String a EmptyString
  else "\u00" +:+ String (hex_digit (n / 16)) (String (hex_digit (n mod 16)) EmptyString).

Fixpoint json_escape (s : string) : string :=
  match s with
  | EmptyString => EmptyString
  | String a s' => json_escape_char a +:+ json_escape s'
  end.

Definition json_string (s : string) : string :=
  String double_quote (json_escape s +:+ String double_quote EmptyString).

Fixpoint spaces (n : nat) : string :=
  match n with O => EmptyString | S n' => String " "%char (spaces n') end.

Definition json_newline (indent : option nat) (level : nat) : string :=
  match indent with
  | Some width => String "010"%char (spaces (width * level))
  | None => EmptyString
  end.

Definition json_item_separator (indent : option nat) (level : nat) : string :=
  match indent with
  | Some _ => "," +:+ json_newline indent level
  | None => ", "
  end.

Fixpoint json_dumps_at (indent : option nat) (level : nat) (v : value) : string :=
  match v with
  | VNone => "null"
  | VBool true => "true"
  | VBool false => "false"
  | VInt n => NilEmpty.string_of_int (Z.to_int n)
  | VStr s => json_string s
  | VList [] => "[]"
  | VList xs =>
      "[" +:+ json_newline indent (S level) +:+
      (fix items (xs : list value) : string :=
         match xs with
         | [] => EmptyString
         | [x] => json_dumps_at indent (S level) x
         | x :: rest =>
             json_dumps_at indent (S level) x +:+
             json_item_separator indent (S level) +:+ items rest
         end) xs +:+
      json_newline indent level +:+ "]"
  | VDict [] => "{}"
  | VDict d =>
      "{" +:+ json_newline indent (S level) +:+
      (fix items (d : list (string * value)) : string :=
         match d with
         | [] => EmptyString
         | [(k, x)] => json_string k +:+ ": " +:+ json_dumps_at indent (S level) x
         | (k, x) :: rest =>
             json_string k +:+ ": " +:+ json_dumps_at indent (S level) x +:+
             json_item_separator indent (S level) +:+ items rest
         end) d +:+
      json_newline indent level +:+ "}"
  end.

Definition json_dumps (indent : option nat) (v : value) : string :=
  json_dumps_at indent 0 v.

Definition epoch_isoformat (t : Z) : string := NilEmpty.string_of_int (Z.to_int t).

Definition epoch_fromisoformat (s : string) : option Z :=
  Z.of_int <$> NilEmpty.int_of_string s.

Definition length_hash (s : string) : Z := Z.of_nat (String.length s).

Definition counting_clock (n : nat) : Z := Z.of_nat n.

(** ** Runs of the cache engine

    The public operations of [TTLCache], as one type, to speak of the
    states an engine can reach. *)

Module CacheRun.

Inductive op :=
| Get (key : string) (now : Z)
| Set_ (key : string) (val : value) (ttl : option Z) (sweep_time stamp_time : Z)
| Delete (key : string)
| Clear
| Size (now : Z)
| Keys (now : Z).

(** The state an operation leaves, whether it returns or raises. *)
Definition after (o : op) (c : TTLCache.t) : option TTLCache.t :=
  match o with
  | Get key now => final (TTLCache.get key now c)
  | Set_ key val ttl t1 t2 => final (TTLCache.set key val ttl t1 t2 c)
  | Delete key => final (TTLCache.delete key c)
  | Clear => final (TTLCache.clear c)
  | Size now => final (TTLCache.size now c)
  | Keys now => final (TTLCache.keys now c)
  end.

Inductive reachable (max_size default_ttl : Z) : TTLCache.t → Prop :=
| reach_init : reachable max_size default_ttl (TTLCache.__init__ max_size default_ttl)
| reach_step c o c' :
    reachable max_size default_ttl c → after o c = Some c' →
    reachable max_size default_ttl c'.

(** Every cached key is stamped, and the cache has one entry per key. *)
Definition stamped (c : TTLCache.t) : Prop :=
  ∀ k, is_Some (dict_get k (TTLCache._cache c)) → is_Some (TTLCache._timestamps c !! k).

Definition well_formed (c : TTLCache.t) : Prop :=
  NoDup (dict_keys (TTLCache._cache c)) ∧ stamped c.

(** Nothing stored is expired at [now]: every stamped key has a numeric TTL
    that its age does not exceed. *)
Definition all_fresh (now : Z) (c : TTLCache.t) : Prop :=
  ∀ k ts, TTLCache._timestamps c !! k = Some ts →
          ∃ t, num_of (TTLCache.entry_ttl c k) = Some t ∧ now - ts ≤ t.

End CacheRun.

(** ** The tiers of the cache manager, by name *)

Definition tier_name (which : CacheManager.tier) : string :=
  match which with
  | CacheManager.QueryTier => "query"
  | CacheManager.SchemaTier => "schema"
  | CacheManager.MetadataTier => "metadata"
  end.

#[global] Instance tier_eq_dec : EqDecision CacheManager.tier.
Proof. solve_decision. Defined.

(** ** Facts about dictionaries and the monad *)

Section DictFacts.
Context {A : Type}.
Implicit Types (d : list (string * A)) (k : string).

Lemma dict_get_del_eq k d : dict_get k (dict_del k d) = None.
Proof.
  induction d as [|[k' v] d IH]; simpl; [done|].
  destruct (String.eqb_spec k k') as [->|Hne]; simpl; [done|].
  by destruct (String.eqb_spec k k').
Qed.

Lemma dict_get_del_ne k k' d : k ≠ k' → dict_get k (dict_del k' d) = dict_get k d.
Proof.
  intros Hne. induction d as [|[k2 v] d IH]; simpl; [done|].
  destruct (String.eqb_spec k' k2) as [->|Hne2]; simpl.
  - by destruct (String.eqb_spec k k2).
  - by rewrite IH.
Qed.

Lemma dict_get_set_eq k v d : dict_get k (dict_set k v d) = Some v.
Proof.
  induction d as [|[k' v'] d IH]; simpl.
  - by rewrite String.eqb_refl.
  - destruct (String.eqb_spec k k') as [->|Hne]; simpl.
    + by rewrite String.eqb_refl.
    + by destruct (String.eqb_spec k k').
Qed.

Lemma dict_get_set_ne k k' v d : k ≠ k' → dict_get k (dict_set k' v d) = dict_get k d.
Proof.
  intros Hne. induction d as [|[k2 v2] d IH]; simpl.
  - by destruct (String.eqb_spec k k').
  - destruct (String.eqb_spec k' k2) as [->|Hne2]; simpl.
    + by destruct (String.eqb_spec k k2).
    + by rewrite IH.
Qed.

Lemma dict_del_length k d : (length (dict_del k d) ≤ length d)%nat.
Proof.
  induction d as [|[k' v] d IH]; simpl; [lia|].
  destruct (String.eqb k k'); simpl; lia.
Qed.

Lemma dict_set_length k v d : (length (dict_set k v d) ≤ S (length d))%nat.
Proof.
  induction d as [|[k' v'] d IH]; simpl; [lia|].
  destruct (String.eqb k k'); simpl; lia.
Qed.

Lemma dict_del_absent k d : dict_get k d = None → dict_del k d = d.
Proof.
  induction d as [|[k' v] d IH]; simpl; [done|].
  destruct (String.eqb k k'); [done|]. intros H. by rewrite IH.
Qed.

Lemma dict_set_absent k v d : dict_get k d = None → dict_set k v d = d ++ [(k, v)].
Proof.
  induction d as [|[k' v'] d IH]; simpl; [done|].
  destruct (String.eqb k k'); [done|]. intros H. by rewrite IH.
Qed.

Lemma dict_mem_true k d : dict_mem k d = true ↔ is_Some (dict_get k d).
Proof.
  unfold dict_mem. destruct (dict_get k d); split; intros H; done.
Qed.

Lemma dict_mem_false k d : dict_mem k d = false ↔ dict_get k d = None.
Proof. unfold dict_mem. by destruct (dict_get k d). Qed.
End DictFacts.

(** Unfolding the monad. *)
Ltac munfold :=
  unfold mbind, mret, M_bind, M_ret, modify, gets, raise, try_except, zoom in *.

Lemma py_gt_num {S} x ttl t (s : S) :
  num_of ttl = Some t → py_gt x ttl s = Ret (t <? x) s.
Proof. unfold py_gt. by intros ->. Qed.

Lemma py_gt_ret {S} x ttl b (s s' : S) :
  py_gt x ttl s = Ret b s' → s' = s ∧ ∃ t, num_of ttl = Some t ∧ b = (t <? x).
Proof.
  unfold py_gt. destruct (num_of ttl) as [t|]; munfold; [|done].
  intros [= <- <-]. eauto.
Qed.


(** ** Facts about the cache engine *)

Module CacheFacts.
Import TTLCache.

Lemma expired_keys_ret c now items s ks s' :
  expired_keys c now items s = Ret ks s' →
  s' = s ∧
  ∀ k, k ∈ ks ↔
       ∃ ts t, (k, ts) ∈ items ∧ num_of (entry_ttl c k) = Some t ∧ t < now - ts.
Proof.
  revert ks s'. induction items as [|[k0 ts0] items IH]; intros ks s'; simpl.
  - munfold. intros [= <- <-]. split; [done|]. intros k. split.
    + by intros ?%elem_of_nil.
    + by intros (? & ? & ?%elem_of_nil & _).
  - unfold mbind, M_bind at 1.
    destruct (py_gt (now - ts0) (entry_ttl c k0) s) as [b s1| |] eqn:Hgt; try done.
    apply py_gt_ret in Hgt as (-> & t0 & Ht0 & ->).
    unfold mbind, M_bind at 1.
    destruct (expired_keys c now items s) as [ks1 s1| |] eqn:Hrest; try done.
    destruct (IH _ _ eq_refl) as [-> IHks]. munfold. intros [= <- <-].
    split; [done|]. intros k.
    destruct (Z.ltb_spec t0 (now - ts0)) as [Hlt|Hge].
    + rewrite elem_of_cons, IHks. split.
      * intros [->|(ts & t & Hin & Ht & Hlt')].
        -- exists ts0, t0. by rewrite elem_of_cons; auto.
        -- exists ts, t. rewrite elem_of_cons. auto.
      * intros (ts & t & [[= -> ->]|Hin]%elem_of_cons & Ht & Hlt'); [by left|].
        right. eauto.
    + rewrite IHks. split.
      * intros (ts & t & Hin & Ht & Hlt'). exists ts, t. rewrite elem_of_cons. auto.
      * intros (ts & t & [[= -> ->]|Hin]%elem_of_cons & Ht & Hlt').
        -- rewrite Ht0 in Ht. injection Ht as <-. lia.
        -- eauto.
Qed.

Lemma expired_keys_total c now items s :
  (∀ k ts, (k, ts) ∈ items → is_Some (num_of (entry_ttl c k))) →
  ∃ ks, expired_keys c now items s = Ret ks s.
Proof.
  induction items as [|[k0 ts0] items IH]; intros Hnum; simpl.
  - by eexists.
  - destruct (Hnum k0 ts0) as [t0 Ht0]; [by left|].
    destruct IH as [ks Hks]; [intros; eapply Hnum; by right|].
    unfold mbind, M_bind at 1. rewrite (py_gt_num _ _ _ _ Ht0).
    unfold mbind, M_bind at 1. rewrite Hks. by eexists.
Qed.

Lemma foldl_pop_key_params c ks :
  max_size (foldl pop_key c ks) = max_size c ∧
  default_ttl (foldl pop_key c ks) = default_ttl c.
Proof. revert c. induction ks as [|k ks IH]; intros c; simpl; [done|]. by rewrite !(proj1 (IH _)), !(proj2 (IH _)). Qed.

Lemma foldl_pop_key_cache c ks k :
  dict_get k (_cache (foldl pop_key c ks)) =
  if decide (k ∈ ks) then None else dict_get k (_cache c).
Proof.
  revert c. induction ks as [|k0 ks IH]; intros c; cbn [foldl].
  - by rewrite decide_False by apply not_elem_of_nil.
  - rewrite IH. destruct (decide (k ∈ ks)) as [Hin|Hnin].
    + by rewrite decide_True by (by right).
    + cbn [pop_key with_cache with_timestamps _cache _timestamps].
      destruct (decide (k = k0)) as [->|Hne].
      * rewrite decide_True by (by left). apply dict_get_del_eq.
      * rewrite decide_False by (by intros [?|?]%elem_of_cons).
        by apply dict_get_del_ne.
Qed.

Lemma foldl_pop_key_timestamps c ks k :
  _timestamps (foldl pop_key c ks) !! k =
  if decide (k ∈ ks) then None else _timestamps c !! k.
Proof.
  revert c. induction ks as [|k0 ks IH]; intros c; cbn [foldl].
  - by rewrite decide_False by apply not_elem_of_nil.
  - rewrite IH. destruct (decide (k ∈ ks)) as [Hin|Hnin].
    + by rewrite decide_True by (by right).
    + cbn [pop_key with_cache with_timestamps _cache _timestamps].
      destruct (decide (k = k0)) as [->|Hne].
      * rewrite decide_True by (by left). apply lookup_delete_eq.
      * rewrite decide_False by (by intros [?|?]%elem_of_cons).
        by apply lookup_delete_ne.
Qed.

Lemma foldl_pop_key_length c ks :
  (length (_cache (foldl pop_key c ks)) ≤ length (_cache c))%nat.
Proof.
  revert c. induction ks as [|k0 ks IH]; intros c; simpl; [lia|].
  etrans; [apply IH|]. simpl. apply dict_del_length.
Qed.

(** What a sweep that returns has done: exactly the entries whose age
    exceeds their TTL are gone, from both maps. *)
Lemma _evict_expired_ret now c c' :
  _evict_expired now c = Ret () c' →
  ∃ ks, c' = foldl pop_key c ks ∧
        ∀ k, k ∈ ks ↔
             ∃ ts t, _timestamps c !! k = Some ts ∧
                     num_of (entry_ttl c k) = Some t ∧ t < now - ts.
Proof.
  unfold _evict_expired. unfold mbind, M_bind at 1.
  destruct (expired_keys _ _ _ _) as [ks s1| |] eqn:Hks; try done.
  apply expired_keys_ret in Hks as [-> Hks]. munfold. intros [= <-].
  exists ks. split; [done|]. intros k. rewrite Hks.
  by setoid_rewrite elem_of_map_to_list.
Qed.

Lemma _evict_expired_total now c :
  (∀ k ts, _timestamps c !! k = Some ts → is_Some (num_of (entry_ttl c k))) →
  ∃ c', _evict_expired now c = Ret () c'.
Proof.
  intros Hnum. unfold _evict_expired.
  destruct (expired_keys_total c now (map_to_list (_timestamps c)) c) as [ks Hks].
  { intros k ts Hin. apply elem_of_map_to_list in Hin. eauto. }
  unfold mbind, M_bind at 1. rewrite Hks. munfold. eauto.
Qed.

Lemma _evict_expired_not_diverge now c : _evict_expired now c ≠ Diverge.
Proof.
  unfold _evict_expired. unfold mbind, M_bind at 1.
  assert (∀ items s, expired_keys c now items s ≠ Diverge) as Hk.
  { induction items as [|[k0 ts0] items IH]; intros s; simpl; [done|].
    unfold mbind, M_bind at 1. unfold py_gt.
    destruct (num_of _); munfold; [|done].
    specialize (IH s). by destruct (expired_keys c now items s). }
  specialize (Hk (map_to_list (_timestamps c)) c).
  by destruct (expired_keys _ _ _ _).
Qed.

(** A sweep that finds nothing expired leaves the engine as it is. *)
Lemma _evict_expired_noop now c :
  (∀ k ts, _timestamps c !! k = Some ts →
           ∃ t, num_of (entry_ttl c k) = Some t ∧ now - ts ≤ t) →
  _evict_expired now c = Ret () c.
Proof.
  intros Hfresh.
  destruct (_evict_expired_total now c) as [c' Hc'].
  { intros k ts Hts. destruct (Hfresh k ts Hts) as (t & -> & _). by eexists. }
  rewrite Hc'. apply _evict_expired_ret in Hc' as (ks & -> & Hks).
  destruct ks as [|k ks]; [done|].
  destruct (proj1 (Hks k)) as (ts & t & Hts & Ht & Hlt); [by left|].
  destruct (Hfresh k ts Hts) as (t' & Ht' & Hle). rewrite Ht in Ht'.
  injection Ht' as <-. lia.
Qed.

Lemma dict_get_elem_of {A} k (v : A) d : dict_get k d = Some v → (k, v) ∈ d.
Proof.
  induction d as [|[k' v'] d IH]; simpl; [done|].
  destruct (String.eqb_spec k k') as [->|Hne].
  - intros [= ->]. by left.
  - intros H. right. auto.
Qed.

Lemma dict_del_subseteq {A} k (d : list (string * A)) : dict_del k d ⊆ d.
Proof.
  induction d as [|[k' v'] d IH]; simpl; [done|].
  destruct (String.eqb k k').
  - by apply list_subseteq_cons.
  - intros x [->|Hin]%elem_of_cons; [by left|]. right. by apply IH.
Qed.

Lemma dict_set_elem_of {A} k (v : A) d x : x ∈ dict_set k v d → x = (k, v) ∨ x ∈ d.
Proof.
  induction d as [|[k' v'] d IH]; simpl.
  - intros ->%list_elem_of_singleton. by left.
  - destruct (String.eqb k k').
    + intros [->|Hin]%elem_of_cons; [by left|]. right. by right.
    + intros [->|Hin]%elem_of_cons; [right; by left|].
      destruct (IH Hin); [by left|]. right. by right.
Qed.

Lemma foldl_pop_key_subseteq c ks : _cache (foldl pop_key c ks) ⊆ _cache c.
Proof.
  revert c. induction ks as [|k0 ks IH]; intros c; cbn [foldl]; [done|].
  etrans; [apply IH|]. apply dict_del_subseteq.
Qed.

(** *** The LRU loop *)

Lemma evict_while_ret fuel c c' :
  evict_while fuel c = Ret () c' →
  Z.of_nat (length (_cache c')) < max_size c ∧
  max_size c' = max_size c ∧ default_ttl c' = default_ttl c ∧
  ∃ n, _cache c' = drop n (_cache c).
Proof.
  revert c. induction fuel as [|fuel IH]; intros c; simpl.
  - destruct (Z.leb_spec (max_size c) (Z.of_nat (length (_cache c)))); [done|].
    intros [= <-]. repeat split; [done|]. by exists 0%nat.
  - destruct (Z.leb_spec (max_size c) (Z.of_nat (length (_cache c)))).
    + unfold mbind, M_bind, _evict_lru.
      destruct (_cache c) as [|[k v] rest] eqn:Hc.
      * intros H'. destruct (IH _ H') as (? & ? & ? & n & ?).
        repeat split; try done. exists n. by rewrite <- Hc.
      * intros H'. destruct (IH _ H') as (? & ? & ? & n & Hn).
        repeat split; try done. by exists (S n).
    + intros [= <-]. repeat split; [done|]. by exists 0%nat.
Qed.

Lemma evict_while_no_raise fuel c e s : evict_while fuel c ≠ Raise e s.
Proof.
  revert c. induction fuel as [|fuel IH]; intros c; simpl;
    destruct (max_size c <=? _); try done.
  unfold mbind, M_bind, _evict_lru. destruct (_cache c) as [|[k v] rest]; apply IH.
Qed.

Lemma evict_while_total fuel c :
  1 ≤ max_size c → (length (_cache c) ≤ fuel)%nat →
  ∃ c', evict_while fuel c = Ret () c'.
Proof.
  intros Hmax. revert c Hmax. induction fuel as [|fuel IH]; intros c Hmax Hlen; simpl.
  - destruct (Z.leb_spec (max_size c) (Z.of_nat (length (_cache c)))); [lia|]. eauto.
  - destruct (Z.leb_spec (max_size c) (Z.of_nat (length (_cache c)))); [|eauto].
    unfold mbind, M_bind, _evict_lru.
    destruct (_cache c) as [|[k v] rest] eqn:Hc; [simpl in *; lia|].
    apply IH; simpl in *; lia.
Qed.

(** With [max_size <= 0] the loop never ends, whatever the number of
    turns allowed. *)
Lemma evict_while_diverge fuel c : max_size c ≤ 0 → evict_while fuel c = Diverge.
Proof.
  revert c. induction fuel as [|fuel IH]; intros c Hmax; simpl;
    (destruct (Z.leb_spec (max_size c) (Z.of_nat (length (_cache c)))); [|lia]);
    [done|].
  unfold mbind, M_bind, _evict_lru. destruct (_cache c) as [|[k v] rest]; by apply IH.
Qed.

(** More turns than entries change nothing: [length _cache] turns decide. *)
Lemma evict_while_fuel fuel c :
  (length (_cache c) ≤ fuel)%nat →
  evict_while fuel c = evict_while (length (_cache c)) c.
Proof.
  intros Hlen. destruct (Z.le_gt_cases (max_size c) 0) as [Hle|Hgt].
  - by rewrite !evict_while_diverge.
  - revert c Hgt Hlen. induction fuel as [|fuel IH]; intros c Hgt Hlen.
    + by replace (length (_cache c)) with 0%nat by lia.
    + destruct (_cache c) as [|[k v] rest] eqn:Hc.
      * simpl. rewrite Hc. simpl.
        by destruct (Z.leb_spec (max_size c) (Z.of_nat 0)); [lia|].
      * simpl. rewrite Hc. cbn [length].
        destruct (Z.leb_spec (max_size c) (Z.of_nat (S (length rest)))); [|done].
        unfold mbind, M_bind, _evict_lru. rewrite Hc.
        rewrite IH; [done|done|simpl in *; lia].
Qed.

(** *** [set] *)

Lemma set_unfold key val ttl t1 t2 c :
  set key val ttl t1 t2 c =
  match _evict_expired t1
          (if dict_mem key (_cache c) then with_cache (dict_del key) c else c) with
  | Ret _ c2 =>
      match evict_while (length (_cache c2)) c2 with
      | Ret _ c3 =>
          Ret () (with_timestamps (insert key t2)
                    (with_cache (dict_set key (cache_value val ttl)) c3))
      | Raise e s => Raise e s
      | Diverge => Diverge
      end
  | Raise e s => Raise e s
  | Diverge => Diverge
  end.
Proof.
  unfold set. munfold.
  destruct (_evict_expired t1 _) as [[] c2| |]; [|done..].
  by destruct (evict_while _ c2) as [[] c3| |].
Qed.

Lemma drop_key_params key c :
  let c1 := if dict_mem key (_cache c) then with_cache (dict_del key) c else c in
  max_size c1 = max_size c ∧ default_ttl c1 = default_ttl c ∧
  _cache c1 ⊆ _cache c ∧ _timestamps c1 = _timestamps c.
Proof.
  simpl. destruct (dict_mem key (_cache c)); simpl; repeat split; try done.
  apply dict_del_subseteq.
Qed.

Lemma set_ret key val ttl t1 t2 c c' :
  set key val ttl t1 t2 c = Ret () c' →
  Z.of_nat (length (_cache c')) ≤ max_size c ∧
  max_size c' = max_size c ∧ default_ttl c' = default_ttl c.
Proof.
  rewrite set_unfold.
  destruct (drop_key_params key c) as (Hm1 & Hd1 & _).
  destruct (_evict_expired t1 _) as [[] c2| |] eqn:H2; [|done..].
  apply _evict_expired_ret in H2 as (ks & -> & _).
  destruct (evict_while _ _) as [[] c3| |] eqn:H3; [|done..].
  apply evict_while_ret in H3 as (Hlen & Hm3 & Hd3 & _).
  intros [= <-]. simpl.
  destruct (foldl_pop_key_params
              (if dict_mem key (_cache c) then with_cache (dict_del key) c else c) ks)
    as [Hm2 Hd2].
  rewrite Hm3, Hd3, Hm2, Hd2, Hm1, Hd1. repeat split; try done.
  pose proof (dict_set_length key (cache_value val ttl) (_cache c3)). lia.
Qed.

Lemma set_not_diverge key val ttl t1 t2 c :
  1 ≤ max_size c → set key val ttl t1 t2 c ≠ Diverge.
Proof.
  intros Hmax. rewrite set_unfold.
  destruct (drop_key_params key c) as (Hm1 & _).
  destruct (_evict_expired t1 _) as [[] c2| |] eqn:H2; [|done|].
  - apply _evict_expired_ret in H2 as (ks & -> & _).
    match goal with |- context [evict_while ?n ?c2] =>
      destruct (evict_while_total n c2) as [c3 ->]; [|done|done] end.
    by rewrite (proj1 (foldl_pop_key_params _ ks)), Hm1.
  - by apply _evict_expired_not_diverge in H2.
Qed.

(** With [max_size <= 0] no call of [set] returns. *)
Lemma set_nonpositive key val ttl t1 t2 c c' :
  max_size c ≤ 0 → set key val ttl t1 t2 c ≠ Ret () c'.
Proof.
  intros Hmax. rewrite set_unfold.
  destruct (drop_key_params key c) as (Hm1 & _).
  destruct (_evict_expired t1 _) as [[] c2| |] eqn:H2; [|done..].
  apply _evict_expired_ret in H2 as (ks & -> & _).
  rewrite evict_while_diverge; [done|].
  by rewrite (proj1 (foldl_pop_key_params _ ks)), Hm1.
Qed.

Lemma numeric_entry_ttl c k : numeric c → is_Some (num_of (entry_ttl c k)).
Proof.
  unfold numeric, entry_ttl. intros Hnum.
  destruct (dict_get k (_cache c)) as [v|] eqn:Hv; [|by eexists].
  apply dict_get_elem_of in Hv.
  rewrite Forall_forall in Hnum. specialize (Hnum _ Hv). simpl in Hnum.
  destruct v; try by eexists. simpl in Hnum.
  destruct (dict_get "ttl" d); [done|by eexists].
Qed.

Lemma numeric_subseteq c c' : _cache c' ⊆ _cache c → numeric c → numeric c'.
Proof.
  unfold numeric. rewrite !Forall_forall. intros Hsub Hnum x Hx. apply Hnum, Hsub, Hx.
Qed.

Lemma numeric_cache_value_ttl val ttl : numeric_entry (cache_value val (Some ttl)).
Proof. simpl. by eexists. Qed.

Lemma set_total key val ttl t1 t2 c :
  1 ≤ max_size c → numeric c → numeric_entry (cache_value val ttl) →
  ∃ c', set key val ttl t1 t2 c = Ret () c' ∧ numeric c'.
Proof.
  intros Hmax Hnum Hval. rewrite set_unfold.
  destruct (drop_key_params key c) as (Hm1 & _ & Hsub1 & _).
  set (c1 := if dict_mem key (_cache c) then with_cache (dict_del key) c else c) in *.
  assert (numeric c1) as Hnum1 by by eapply numeric_subseteq.
  destruct (_evict_expired_total t1 c1) as [c2 H2].
  { intros k ts _. by apply numeric_entry_ttl. }
  rewrite H2. apply _evict_expired_ret in H2 as (ks & -> & _).
  destruct (evict_while_total (length (_cache (foldl pop_key c1 ks))) (foldl pop_key c1 ks))
    as [c3 H3]; [|done|].
  { by rewrite (proj1 (foldl_pop_key_params _ ks)), Hm1. }
  rewrite H3. apply evict_while_ret in H3 as (_ & _ & _ & n & Hn).
  eexists. split; [done|]. unfold numeric. simpl. rewrite Forall_forall.
  intros x [->|Hx]%dict_set_elem_of; [done|].
  assert (numeric (foldl pop_key c1 ks)) as Hnum2.
  { eapply numeric_subseteq; [apply foldl_pop_key_subseteq|done]. }
  unfold numeric in Hnum2. rewrite Forall_forall in Hnum2. apply Hnum2.
  rewrite Hn in Hx. by eapply subseteq_drop.
Qed.

(** *** [size] *)

Lemma size_ret now c n c' :
  size now c = Ret n c' → n ≤ Z.of_nat (length (_cache c)) ∧ max_size c' = max_size c.
Proof.
  unfold size. unfold mbind, M_bind at 1.
  destruct (_evict_expired now c) as [[] c1| |] eqn:H1; [|done..].
  apply _evict_expired_ret in H1 as (ks & -> & _). munfold. intros [= <- <-].
  split; [|apply foldl_pop_key_params].
  pose proof (foldl_pop_key_length c ks). lia.
Qed.

Lemma set_stored key val ttl t1 t2 c c' :
  set key val ttl t1 t2 c = Ret () c' →
  dict_get key (_cache c') = Some (cache_value val ttl) ∧
  _timestamps c' !! key = Some t2.
Proof.
  rewrite set_unfold.
  destruct (_evict_expired t1 _) as [[] c2| |]; [|done..].
  destruct (evict_while _ _) as [[] c3| |]; [|done..].
  intros [= <-]. simpl. split; [apply dict_get_set_eq|apply lookup_insert_eq].
Qed.

(** [set] when the sweep finds nothing to remove. *)
Lemma set_no_expiry key val ttl t1 t2 c :
  let c1 := if dict_mem key (_cache c) then with_cache (dict_del key) c else c in
  (∀ k ts, _timestamps c !! k = Some ts →
           ∃ t, num_of (entry_ttl c1 k) = Some t ∧ t1 - ts ≤ t) →
  set key val ttl t1 t2 c =
  match evict_while (length (_cache c1)) c1 with
  | Ret _ c3 =>
      Ret () (with_timestamps (insert key t2)
                (with_cache (dict_set key (cache_value val ttl)) c3))
  | Raise e s => Raise e s
  | Diverge => Diverge
  end.
Proof.
  intros c1 Hfresh. rewrite set_unfold. fold c1.
  rewrite _evict_expired_noop; [done|].
  intros k ts Hts. apply Hfresh.
  by rewrite <- (proj2 (proj2 (proj2 (drop_key_params key c)))).
Qed.

(** *** [get] *)

Lemma get_absent key now c :
  dict_get key (_cache c) = None → get key now c = Ret VNone c.
Proof. intros H. unfold get, dict_mem. by rewrite H. Qed.

Lemma get_expired key now c :
  _is_expired key now c = Ret true c → get key now c = Ret VNone c.
Proof.
  intros H. unfold get. destruct (negb _); [done|].
  unfold mbind, M_bind. by rewrite H.
Qed.

Lemma _is_expired_stamped key now c ts t :
  _timestamps c !! key = Some ts → num_of (entry_ttl c key) = Some t →
  _is_expired key now c = Ret (t <? now - ts) c.
Proof. intros Hts Ht. unfold _is_expired. rewrite Hts. by apply py_gt_num. Qed.

Lemma get_hit key now c v ts t :
  dict_get key (_cache c) = Some v →
  _timestamps c !! key = Some ts → num_of (entry_ttl c key) = Some t →
  now - ts ≤ t →
  get key now c = Ret v (with_cache (λ d, dict_set key v (dict_del key d)) c).
Proof.
  intros Hv Hts Ht Hle. unfold get, dict_mem. rewrite Hv. simpl.
  unfold mbind, M_bind at 1. rewrite (_is_expired_stamped _ _ _ _ _ Hts Ht).
  destruct (Z.ltb_spec t (now - ts)); [lia|]. munfold. by rewrite Hv.
Qed.

(** What a [get] finds after a [set] of the same key: the stored object
    (the wrapper, when the [set] named a TTL) until the TTL in force has
    run out, [None] afterwards. *)
Lemma get_after_set key val ttl t1 t2 c c' t now :
  set key val ttl t1 t2 c = Ret () c' →
  num_of (entry_ttl c' key) = Some t →
  ∃ c'', get key now c' =
         Ret (if t <? now - t2 then VNone else cache_value val ttl) c''.
Proof.
  intros [Hv Hts]%set_stored Ht.
  destruct (Z.ltb_spec t (now - t2)) as [Hlt|Hle].
  - exists c'. apply get_expired.
    rewrite (_is_expired_stamped _ _ _ _ _ Hts Ht).
    by destruct (Z.ltb_spec t (now - t2)); [|lia].
  - eexists. by eapply get_hit.
Qed.

Lemma entry_ttl_after_set key val ttl t1 t2 c c' :
  set key val (Some ttl) t1 t2 c = Ret () c' → entry_ttl c' key = VInt ttl.
Proof. intros [Hv _]%set_stored. unfold entry_ttl. by rewrite Hv. Qed.

Lemma dict_get_drop_None {A} k n (d : list (string * A)) :
  dict_get k d = None → dict_get k (drop n d) = None.
Proof.
  revert n. induction d as [|[k' v] d IH]; intros n; [by rewrite drop_nil|].
  simpl. destruct (String.eqb_spec k k') as [->|Hne]; [done|]. intros H.
  destruct n as [|n]; simpl; [|by apply IH].
  by destruct (String.eqb_spec k k').
Qed.

Lemma entry_ttl_drop_key key k c :
  k ≠ key →
  entry_ttl (if dict_mem key (_cache c) then with_cache (dict_del key) c else c) k =
  entry_ttl c k.
Proof.
  intros Hne. destruct (dict_mem key (_cache c)); [|done].
  unfold entry_ttl. simpl. by rewrite dict_get_del_ne.
Qed.

Lemma dict_get_None_keys {A} k (d : list (string * A)) :
  dict_get k d = None ↔ k ∉ dict_keys d.
Proof.
  unfold dict_keys. induction d as [|[k' v] d IH]; simpl.
  - split; [|done]. intros _. apply not_elem_of_nil.
  - rewrite not_elem_of_cons, <- IH.
    destruct (String.eqb_spec k k') as [->|Hne]; [|tauto].
    split; [done|]. by intros [? _].
Qed.

(** *** Sequences of [set] *)

Lemma set_all_ret calls c c' :
  calls ≠ [] → set_all calls c = Ret () c' →
  Z.of_nat (length (_cache c')) ≤ max_size c ∧ max_size c' = max_size c.
Proof.
  revert c. induction calls as [|x rest IH]; intros c Hne; [done|]. simpl.
  unfold mbind, M_bind at 1.
  destruct (set _ _ _ _ _ c) as [[] c1| |] eqn:H1; [|done..].
  apply set_ret in H1 as (Hlen & Hm & _).
  destruct rest as [|y rest].
  - simpl. munfold. intros [= <-]. done.
  - intros H'. destruct (IH c1) as [Hlen' Hm']; [done|done|].
    rewrite Hm' , <- Hm. split; [lia|done].
Qed.

Lemma set_all_not_diverge calls c : 1 ≤ max_size c → set_all calls c ≠ Diverge.
Proof.
  revert c. induction calls as [|x rest IH]; intros c Hmax; [done|]. simpl.
  unfold mbind, M_bind at 1.
  destruct (set _ _ _ _ _ c) as [[] c1| |] eqn:H1; [|done|].
  - apply set_ret in H1 as (_ & Hm & _). apply IH. lia.
  - by apply set_not_diverge in H1.
Qed.

Lemma set_all_total calls c :
  1 ≤ max_size c → numeric c →
  Forall (λ x, numeric_entry (cache_value (sc_val x) (sc_ttl x))) calls →
  ∃ c', set_all calls c = Ret () c'.
Proof.
  revert c. induction calls as [|x rest IH]; intros c Hmax Hnum Hcalls; simpl.
  - by eexists.
  - apply Forall_cons in Hcalls as [Hx Hrest].
    destruct (set_total (sc_key x) (sc_val x) (sc_ttl x) (sc_sweep x) (sc_stamp x) c)
      as (c1 & H1 & Hnum1); [done..|].
    unfold mbind, M_bind at 1. rewrite H1.
    apply set_ret in H1 as (_ & Hm & _). apply IH; [lia|done..].
Qed.
End CacheFacts.

(** ** The capacity invariant *)

(** C3.  Whatever the sequence of [set] calls on a fresh engine of capacity
    [max_size] (distinct keys or not), the engine holds at most [max_size]
    entries when the last call returns, and [size()] then reports at most
    [max_size].  Every prefix of a sequence is a sequence, so this holds
    after each call.  With a capacity of at least one the calls cannot run
    forever, and they all return when the stored objects name numeric TTLs
    only. *)
Theorem C3_capacity_invariant (max_size default_ttl : Z) (calls : list TTLCache.set_call) :
  (∀ c, calls ≠ [] →
        TTLCache.set_all calls (TTLCache.__init__ max_size default_ttl) = Ret () c →
        Z.of_nat (length (TTLCache._cache c)) ≤ max_size ∧
        ∀ now n c', TTLCache.size now c = Ret n c' → n ≤ max_size) ∧
  (1 ≤ max_size →
   TTLCache.set_all calls (TTLCache.__init__ max_size default_ttl) ≠ Diverge) ∧
  (1 ≤ max_size →
   Forall (λ x, TTLCache.numeric_entry
                  (TTLCache.cache_value (TTLCache.sc_val x) (TTLCache.sc_ttl x))) calls →
   ∃ c, TTLCache.set_all calls (TTLCache.__init__ max_size default_ttl) = Ret () c).
Proof.
  split; [|split].
  - intros c Hne Hret. apply CacheFacts.set_all_ret in Hret as [Hlen _]; [|done].
    simpl in Hlen. split; [done|]. intros now n c' Hsize.
    apply CacheFacts.size_ret in Hsize as [Hn _]. lia.
  - intros Hmax. by apply CacheFacts.set_all_not_diverge.
  - intros Hmax Hcalls. apply CacheFacts.set_all_total; [done| |done].
    by apply Forall_nil.
Qed.

Lemma C3_capacity_invariant_witness :
  ∃ c, TTLCache.set_all
         [TTLCache.SetCall "a" (VInt 1) None 0 0;
          TTLCache.SetCall "b" (VInt 2) (Some 5) 1 1;
          TTLCache.SetCall "c" (VStr "x") None 2 3]
         (TTLCache.__init__ 2 300) = Ret () c ∧
       Z.of_nat (length (TTLCache._cache c)) ≤ 2.
Proof.
  destruct (C3_capacity_invariant 2 300
              [TTLCache.SetCall "a" (VInt 1) None 0 0;
               TTLCache.SetCall "b" (VInt 2) (Some 5) 1 1;
               TTLCache.SetCall "c" (VStr "x") None 2 3]) as (Hcap & _ & Htot).
  destruct Htot as [c Hc]; [lia| |].
  - repeat constructor; simpl; by eexists.
  - exists c. split; [exact Hc|]. by apply (Hcap c).
Defined.

(** ** Least-recently-used order *)

Ltac fresh_entries :=
  let k := fresh "k" in let ts := fresh "ts" in let Hts := fresh "Hts" in
  intros k ts Hts; simpl in Hts;
  repeat first
    [ apply lookup_insert_Some in Hts as [[<- <-]|[? Hts]]
    | apply lookup_delete_Some in Hts as [? Hts]
    | by rewrite lookup_empty in Hts ];
  try done;
  (eexists; split; [reflexivity|simpl; lia]).

(** C5.  On an engine of capacity two, with all clock readings of the run
    inside a window no longer than the default TTL (so nothing expires):
    after [set(a,1); set(b,2); get(a); set(c,3)], [get(b)] is absent and
    [get(a)], [get(c)] give 1 and 3. *)
Theorem C5_lru_order (default_ttl lo hi : Z)
    (t1 t1' t2 t2' t3 t4 t4' t5 t6 t7 : Z) :
  hi - lo ≤ default_ttl →
  Forall (λ t, lo ≤ t ≤ hi) [t1; t1'; t2; t2'; t3; t4; t4'; t5; t6; t7] →
  ∃ c, (TTLCache.set "a" (VInt 1) None t1 t1';;
        TTLCache.set "b" (VInt 2) None t2 t2';;
        TTLCache.get "a" t3;;
        TTLCache.set "c" (VInt 3) None t4 t4';;
        b ← TTLCache.get "b" t5;
        a ← TTLCache.get "a" t6;
        c ← TTLCache.get "c" t7;
        mret (b, a, c)) (TTLCache.__init__ 2 default_ttl)
       = Ret (VNone, VInt 1, VInt 3) c.
Proof.
  intros Hwin Htimes.
  repeat (apply Forall_cons in Htimes as [? Htimes]).
  unfold mbind, M_bind at 1.
  rewrite CacheFacts.set_no_expiry by fresh_entries. simpl.
  unfold mbind, M_bind at 1.
  rewrite CacheFacts.set_no_expiry by fresh_entries. simpl.
  unfold mbind, M_bind at 1.
  erewrite CacheFacts.get_hit;
    [|reflexivity|simpl; by simplify_map_eq|reflexivity|simpl; lia].
  simpl.
  unfold mbind, M_bind at 1.
  rewrite CacheFacts.set_no_expiry by fresh_entries. simpl.
  unfold mbind, M_bind at 1.
  rewrite CacheFacts.get_absent by reflexivity.
  unfold mbind, M_bind at 1.
  erewrite CacheFacts.get_hit;
    [|reflexivity|simpl; by simplify_map_eq|reflexivity|simpl; lia].
  unfold mbind, M_bind at 1.
  erewrite CacheFacts.get_hit;
    [|reflexivity|simpl; by simplify_map_eq|reflexivity|simpl; lia].
  by eexists.
Qed.

Lemma C5_lru_order_witness :
  ∃ c, (TTLCache.set "a" (VInt 1) None 0 1;;
        TTLCache.set "b" (VInt 2) None 2 3;;
        TTLCache.get "a" 4;;
        TTLCache.set "c" (VInt 3) None 5 6;;
        b ← TTLCache.get "b" 7;
        a ← TTLCache.get "a" 8;
        c ← TTLCache.get "c" 9;
        mret (b, a, c)) (TTLCache.__init__ 2 300)
       = Ret (VNone, VInt 1, VInt 3) c.
Proof.
  apply (C5_lru_order 300 0 9 0 1 2 3 4 5 6 7 8 9); [lia|].
  repeat constructor; lia.
Defined.

(** ** Expiry *)

(** C9.  A [get] on a key whose entry is expired reports a miss and leaves
    the engine exactly as it was, so the entry is still stored and counted;
    the sweep of a later [set] (of another key) removes it. *)
Theorem C9_get_expired_frame (c : TTLCache.t) (key : string) (v : value) (now : Z) :
  dict_get key (TTLCache._cache c) = Some v →
  TTLCache._is_expired key now c = Ret true c →
  TTLCache.get key now c = Ret VNone c ∧
  ∀ ts key' val ttl t1 t2 c',
    TTLCache._timestamps c !! key = Some ts → key' ≠ key → now ≤ t1 →
    TTLCache.set key' val ttl t1 t2 c = Ret () c' →
    dict_get key (TTLCache._cache c') = None.
Proof.
  intros Hv Hexp. split; [by apply CacheFacts.get_expired|].
  intros ts key' val ttl t1 t2 c' Hts Hne Hnow.
  unfold TTLCache._is_expired in Hexp. rewrite Hts in Hexp.
  apply py_gt_ret in Hexp as (_ & t & Ht & Hlt). symmetry in Hlt.
  apply Z.ltb_lt in Hlt.
  rewrite CacheFacts.set_unfold.
  destruct (CacheFacts.drop_key_params key' c) as (_ & _ & _ & Hts1).
  pose proof (CacheFacts.entry_ttl_drop_key key' key c (not_eq_sym Hne)) as Httl.
  simpl in Hts1.
  destruct (TTLCache._evict_expired t1 _) as [[] c2| |] eqn:H2; [|done..].
  apply CacheFacts._evict_expired_ret in H2 as (ks & -> & Hks).
  destruct (TTLCache.evict_while _ _) as [[] c3| |] eqn:H3; [|done..].
  apply CacheFacts.evict_while_ret in H3 as (_ & _ & _ & n & Hn).
  intros [= <-]. simpl. rewrite dict_get_set_ne by done. rewrite Hn.
  apply CacheFacts.dict_get_drop_None.
  rewrite CacheFacts.foldl_pop_key_cache. rewrite decide_True; [done|].
  apply Hks. exists ts, t. rewrite Hts1, Httl. repeat split; [done..|lia].
Qed.

Lemma C9_get_expired_frame_witness :
  let c := TTLCache.mk 2 5 [("k", VInt 1)] {["k" := 0]} in
  TTLCache.get "k" 9 c = Ret VNone c.
Proof.
  intros c. apply (C9_get_expired_frame c "k" (VInt 1) 9); reflexivity.
Defined.

(** C10.  After [set(key, v)] without a TTL argument, where [v] is a dict
    with a ['ttl'] entry [t], the entry expires [t] units after the stamp of
    the call, whatever the engine's [default_ttl]: so decide [_is_expired],
    [get], the sweep, [size] and [keys]. *)
Theorem C10_value_ttl_overrides_default (c c' : TTLCache.t) (key : string)
    (d : list (string * value)) (t t1 t2 : Z) :
  dict_get "ttl" d = Some (VInt t) →
  TTLCache.set key (VDict d) None t1 t2 c = Ret () c' →
  ∀ now,
    TTLCache._is_expired key now c' = Ret (t <? now - t2) c' ∧
    (t < now - t2 → TTLCache.get key now c' = Ret VNone c') ∧
    (now - t2 ≤ t → ∃ c'', TTLCache.get key now c' = Ret (VDict d) c'') ∧
    (∀ c'', TTLCache._evict_expired now c' = Ret () c'' →
            (dict_get key (TTLCache._cache c'') = None ↔ t < now - t2)) ∧
    (∀ n c'', TTLCache.size now c' = Ret n c'' →
              (dict_get key (TTLCache._cache c'') = None ↔ t < now - t2)) ∧
    (∀ ks c'', TTLCache.keys now c' = Ret ks c'' → (key ∈ ks ↔ now - t2 ≤ t)).
Proof.
  intros Hd Hset now.
  apply CacheFacts.set_stored in Hset as [Hv Hts]. simpl in Hv.
  assert (TTLCache.entry_ttl c' key = VInt t) as Httl.
  { unfold TTLCache.entry_ttl. by rewrite Hv, Hd. }
  assert (TTLCache._is_expired key now c' = Ret (t <? now - t2) c') as Hexp.
  { eapply CacheFacts._is_expired_stamped; [done|]. by rewrite Httl. }
  assert (∀ c'', TTLCache._evict_expired now c' = Ret () c'' →
            (dict_get key (TTLCache._cache c'') = None ↔ t < now - t2)) as Hsweep.
  { intros c'' H2. apply CacheFacts._evict_expired_ret in H2 as (ks & -> & Hks).
    rewrite CacheFacts.foldl_pop_key_cache. destruct (decide (key ∈ ks)) as [Hin|Hnin].
    - split; [|done]. intros _. apply Hks in Hin as (ts & t' & Hts' & Ht' & Hlt).
      rewrite Hts in Hts'. rewrite Httl in Ht'. simpl in Ht'. by simplify_eq.
    - rewrite Hv. split; [done|]. intros Hlt. destruct Hnin. apply Hks.
      exists t2, t. by rewrite Httl. }
  split; [done|]. split; [|split; [|split; [done|split]]].
  - intros Hlt. apply CacheFacts.get_expired. rewrite Hexp.
    by destruct (Z.ltb_spec t (now - t2)); [|lia].
  - intros Hle. eexists. eapply CacheFacts.get_hit; [done..| |done]. by rewrite Httl.
  - intros n c''. unfold TTLCache.size. unfold mbind, M_bind at 1.
    destruct (TTLCache._evict_expired now c') as [[] c2| |] eqn:H2; [|done..].
    munfold. intros [= _ <-]. by apply Hsweep.
  - intros ks c''. unfold TTLCache.keys. unfold mbind, M_bind at 1.
    destruct (TTLCache._evict_expired now c') as [[] c2| |] eqn:H2; [|done..].
    munfold. intros [= <- <-]. specialize (Hsweep _ eq_refl).
    rewrite <- Z.nlt_ge, <- Hsweep.
    pose proof (CacheFacts.dict_get_None_keys key (TTLCache._cache c2)) as Hk.
    destruct (decide (key ∈ dict_keys (TTLCache._cache c2))); tauto.
Qed.

Lemma C10_value_ttl_overrides_default_witness :
  ∃ c', TTLCache.set "k" (VDict [("rows", VInt 7); ("ttl", VInt 5)]) None 0 0
          (TTLCache.__init__ 10 300) = Ret () c' ∧
        TTLCache.get "k" 6 c' = Ret VNone c'.
Proof.
  destruct (CacheFacts.set_total "k" (VDict [("rows", VInt 7); ("ttl", VInt 5)]) None 0 0
              (TTLCache.__init__ 10 300)) as (c' & Hc' & _).
  { simpl. lia. }
  { by apply Forall_nil. }
  { simpl. by eexists. }
  exists c'. split; [exact Hc'|].
  apply (C10_value_ttl_overrides_default (TTLCache.__init__ 10 300) c' "k"
           [("rows", VInt 7); ("ttl", VInt 5)] 5 0 0 eq_refl Hc' 6). lia.
Defined.

(** C4.  [set] with a TTL stores the wrapper [{"value": v, "ttl": t}], and
    [get] hands back what is stored: for [set("k", 1, ttl=5)] at time 0 a
    [get("k")] at time 1 returns the wrapper, not [1]; at time 6, past the
    TTL, it returns [None]. *)
Theorem C4_get_returns_wrapper :
  (∃ c, (TTLCache.set "k" (VInt 1) (Some 5) 0 0;; TTLCache.get "k" 1)
          (TTLCache.__init__ 10 300)
        = Ret (VDict [("value", VInt 1); ("ttl", VInt 5)]) c) ∧
  VDict [("value", VInt 1); ("ttl", VInt 5)] ≠ VInt 1 ∧
  (∃ c, (TTLCache.set "k" (VInt 1) (Some 5) 0 0;; TTLCache.get "k" 6)
          (TTLCache.__init__ 10 300)
        = Ret VNone c).
Proof.
  split; [|split]; [|done|]; vm_compute; by eexists.
Qed.

(** ** Facts about text *)

Section TextFacts.
Implicit Types (s p pre post kw : string) (a : ascii).

Lemma append_nil_l s : "" +:+ s = s.
Proof. done. Qed.

Lemma append_cons a s1 s2 : String a s1 +:+ s2 = String a (s1 +:+ s2).
Proof. done. Qed.

Lemma append_nil_r s : s +:+ "" = s.
Proof. induction s as [|a s IH]; [done|]. by rewrite append_cons, IH. Qed.

Lemma append_assoc s1 s2 s3 : (s1 +:+ s2) +:+ s3 = s1 +:+ (s2 +:+ s3).
Proof. induction s1 as [|a s1 IH]; [done|]. by rewrite !append_cons, IH. Qed.

Lemma upper_app s1 s2 : upper (s1 +:+ s2) = upper s1 +:+ upper s2.
Proof. induction s1 as [|a s1 IH]; [done|]. rewrite append_cons. simpl. by rewrite IH. Qed.

Lemma is_space_upper_char a : is_space (upper_char a) = is_space a.
Proof. by destruct a as [[] [] [] [] [] [] [] []]. Qed.

Lemma upper_lstrip s : upper (lstrip s) = lstrip (upper s).
Proof.
  induction s as [|a s IH]; simpl; [done|].
  rewrite is_space_upper_char. by destruct (is_space a).
Qed.

Lemma upper_rstrip s : upper (rstrip s) = rstrip (upper s).
Proof.
  induction s as [|a s IH]; simpl; [done|].
  rewrite <- IH, is_space_upper_char.
  destruct (rstrip s); simpl; [|done]. by destruct (is_space a).
Qed.

Lemma upper_strip s : upper (strip s) = strip (upper s).
Proof. unfold strip. by rewrite upper_rstrip, upper_lstrip. Qed.

Lemma startswith_spec p s : startswith p s = true ↔ ∃ rest, s = p +:+ rest.
Proof.
  revert s. induction p as [|a p IH]; intros s; simpl.
  - split; [eauto|done].
  - destruct s as [|b s].
    + split; [done|]. by intros [rest ?].
    + rewrite andb_true_iff, IH. split.
      * intros [->%Ascii.eqb_eq [rest ->]]. eauto.
      * intros [rest [= -> ->]]. rewrite Ascii.eqb_refl. eauto.
Qed.

Lemma contains_spec kw s : contains kw s = true ↔ ∃ pre post, s = pre +:+ kw +:+ post.
Proof.
  induction s as [|b s IH]; simpl; rewrite orb_true_iff, startswith_spec.
  - split.
    + intros [[rest Hrest]|?]; [|done]. by exists "", rest.
    + intros (pre & post & Heq). left. destruct pre; [by exists post|done].
  - rewrite IH. split.
    + intros [[rest ->]|(pre & post & ->)]; [by exists "", rest|].
      by exists (String b pre), post.
    + intros (pre & post & Heq). destruct pre as [|a pre].
      * left. by exists post.
      * right. rewrite append_cons in Heq. injection Heq as -> ->. eauto.
Qed.

Lemma lstrip_app s1 s2 :
  lstrip (s1 +:+ s2) =
  match lstrip s1 with EmptyString => lstrip s2 | r => r +:+ s2 end.
Proof.
  induction s1 as [|a s1 IH]; [done|]. rewrite append_cons. simpl.
  by destruct (is_space a).
Qed.

Lemma rstrip_app s1 s2 :
  rstrip (s1 +:+ s2) =
  match rstrip s2 with EmptyString => rstrip s1 | r => s1 +:+ r end.
Proof.
  induction s1 as [|a s1 IH].
  - rewrite append_nil_l. by destruct (rstrip s2).
  - rewrite append_cons. simpl. rewrite IH. destruct (rstrip s2); [done|].
    by destruct s1.
Qed.

(** A word that neither starts nor ends with white space survives
    [strip] wherever it occurs. *)
Lemma strip_keeps kw pre post :
  kw ≠ "" → lstrip kw = kw → rstrip kw = kw →
  ∃ pre' post', strip (pre +:+ kw +:+ post) = pre' +:+ kw +:+ post'.
Proof.
  intros Hne Hl Hr. unfold strip.
  assert (∃ post', rstrip (kw +:+ post) = kw +:+ post') as [post' Hpost].
  { rewrite rstrip_app. destruct (rstrip post) as [|b r].
    - exists "". by rewrite Hr, append_nil_r.
    - by eexists. }
  assert (lstrip (kw +:+ post) = kw +:+ post) as Hlk.
  { rewrite lstrip_app, Hl. by destruct kw. }
  rewrite lstrip_app. destruct (lstrip pre) as [|b r] eqn:Hpre.
  - rewrite Hlk. exists "", post'. by rewrite Hpost.
  - exists (String b r), post'. rewrite rstrip_app, Hpost.
    destruct kw as [|a kw]; [done|]. by rewrite append_cons.
Qed.

Lemma contains_upper_strip kw q pre w post :
  kw ≠ "" → lstrip kw = kw → rstrip kw = kw →
  q = pre +:+ w +:+ post → upper w = kw →
  contains kw (upper (strip q)) = true.
Proof.
  intros Hne Hl Hr -> Hw. rewrite upper_strip, !upper_app, Hw.
  destruct (strip_keeps kw (upper pre) (upper post)) as (pre' & post' & ->); [done..|].
  apply contains_spec. eauto.
Qed.

Lemma append_length s1 s2 :
  String.length (s1 +:+ s2) = (String.length s1 + String.length s2)%nat.
Proof. induction s1 as [|a s1 IH]; [done|]. rewrite append_cons. simpl. by rewrite IH. Qed.

(** Cancellation on the right, of a whole suffix and of a last character. *)
Lemma append_inj_r s1 s2 s : s1 +:+ s = s2 +:+ s → s1 = s2.
Proof.
  revert s2. induction s1 as [|a s1 IH]; intros [|b s2] Heq; [done| | |].
  - apply (f_equal String.length) in Heq.
    rewrite append_nil_l, append_cons in Heq. simpl in Heq.
    rewrite append_length in Heq. lia.
  - apply (f_equal String.length) in Heq.
    rewrite append_nil_l, append_cons in Heq. simpl in Heq.
    rewrite append_length in Heq. lia.
  - rewrite !append_cons in Heq. injection Heq as -> Heq. by rewrite (IH s2).
Qed.

Lemma append_last_inj s1 s2 a b :
  s1 +:+ String a "" = s2 +:+ String b "" → s1 = s2 ∧ a = b.
Proof.
  revert s2. induction s1 as [|c s1 IH]; intros [|d s2] Heq.
  - by injection Heq as ->.
  - rewrite append_cons in Heq. injection Heq as -> Heq. by destruct s2.
  - rewrite append_cons in Heq. injection Heq as -> Heq. by destruct s1.
  - rewrite !append_cons in Heq. injection Heq as -> Heq.
    destruct (IH s2 Heq) as [-> ->]. done.
Qed.
End TextFacts.

(** ** The validators *)

Module ValidatorFacts.
#[local] Arguments startswith : simpl never.
#[local] Arguments contains : simpl never.
#[local] Arguments upper : simpl never.
#[local] Arguments strip : simpl never.
#[local] Arguments existsb : simpl never.

Lemma keywords_trimmed :
  Forall (λ kw, kw ≠ "" ∧ lstrip kw = kw ∧ rstrip kw = kw)
         MySQLDataSource.dangerous_keywords.
Proof. repeat constructor; done. Qed.





End ValidatorFacts.

Module ValidatorMore.

Lemma upper_app_inv s x y :
  upper s = x +:+ y → ∃ s1 s2, s = s1 +:+ s2 ∧ upper s1 = x ∧ upper s2 = y.
Proof.
  revert s. induction x as [|a x IH]; intros s.
  - rewrite append_nil_l. intros Hs. exists "", s. by rewrite append_nil_l.
  - rewrite append_cons. destruct s as [|b s]; simpl; [done|].
    intros [= Ha Hs]. destruct (IH s Hs) as (s1 & s2 & -> & H1 & H2).
    exists (String b s1), s2. rewrite append_cons. simpl. by rewrite Ha, H1.
Qed.

Lemma lstrip_prefix s : ∃ l, s = l +:+ lstrip s.
Proof.
  induction s as [|a s [l IH]]; simpl.
  - by exists "".
  - destruct (is_space a).
    + exists (String a l). rewrite append_cons. by f_equal.
    + exists "". by rewrite append_nil_l.
Qed.

Lemma rstrip_suffix s : ∃ r, s = rstrip s +:+ r.
Proof.
  induction s as [|a s [r IH]]; simpl.
  - by exists "".
  - destruct (rstrip s) as [|b t] eqn:Ht.
    + destruct (is_space a).
      * exists (String a s). by rewrite append_nil_l.
      * exists r. rewrite append_cons. f_equal. by rewrite append_nil_l in IH.
    + exists r. rewrite append_cons. by f_equal.
Qed.

Lemma strip_occurs s : ∃ l r, s = l +:+ strip s +:+ r.
Proof.
  destruct (lstrip_prefix s) as [l Hl]. destruct (rstrip_suffix (lstrip s)) as [r Hr].
  exists l, r. unfold strip. by rewrite <- Hr.
Qed.

(** A keyword found in the trimmed, upper-cased statement stands in the
    statement itself, in some mix of cases. *)
Lemma contains_upper_strip_inv kw q :
  contains kw (upper (strip q)) = true → occurs_in_any_case kw q.
Proof.
  intros (pre & post & Hocc)%contains_spec.
  apply upper_app_inv in Hocc as (a & rest & Hsplit & _ & Hrest).
  apply upper_app_inv in Hrest as (w & b & -> & Hw & _).
  destruct (strip_occurs q) as (l & r & Hq).
  exists w. split; [done|]. exists (l +:+ a), (b +:+ r).
  rewrite Hq, Hsplit. by rewrite !append_assoc.
Qed.

(** The SQL validator on a string statement and a numeric limit. *)
Lemma sql_accepts_exactly {S} mql p q n (s : S) :
  default (VStr "") (dict_get "query" p) = VStr q →
  num_of (default (VInt 100) (dict_get "limit" p)) = Some n →
  ∃ b, MySQLDataSource.validate_query mql p s = Ret b s ∧
       (b = true ↔
        (∃ rest, upper (strip q) = "SELECT" +:+ rest) ∧
        (∀ kw, kw ∈ MySQLDataSource.dangerous_keywords → ¬ occurs_in_any_case kw q) ∧
        n ≤ mql).
Proof.
  intros Hq Hn. unfold MySQLDataSource.validate_query. rewrite Hq.
  unfold py_str. unfold mbind, mret, M_bind, M_ret.
  destruct (startswith "SELECT" (upper (strip q))) eqn:Hsel; cbn [negb].
  - apply startswith_spec in Hsel.
    destruct (existsb (λ keyword, contains keyword (upper (strip q)))
                MySQLDataSource.dangerous_keywords) eqn:Hkw.
    + exists false. split; [done|]. split; [done|]. intros (_ & Hnone & _). exfalso.
      apply existsb_exists in Hkw as (kw & Hin%list_elem_of_In & Hc).
      apply (Hnone kw Hin). by apply contains_upper_strip_inv.
    + assert (∀ kw, kw ∈ MySQLDataSource.dangerous_keywords →
                    ¬ occurs_in_any_case kw q) as Hnone.
      { intros kw Hin (w & Hw & pre & post & Hocc).
        pose proof ValidatorFacts.keywords_trimmed as Htrim.
        rewrite Forall_forall in Htrim. destruct (Htrim kw Hin) as (Hne & Hl & Hr).
        assert (existsb (λ keyword, contains keyword (upper (strip q)))
                  MySQLDataSource.dangerous_keywords = true) as Hyes; [|congruence].
        apply existsb_exists. exists kw. split; [by apply list_elem_of_In|].
        by eapply contains_upper_strip. }
      unfold py_value_gt. rewrite Hn. unfold mret, M_ret.
      destruct (Z.ltb_spec mql n).
      * exists false. split; [done|]. split; [done|]. intros (_ & _ & ?). lia.
      * exists true. split; [done|]. split; [|done]. intros _. split_and!; [done..|lia].
  - exists false. split; [done|]. split; [done|]. intros (Hrest & _).
    apply startswith_spec in Hrest. congruence.
Qed.

End ValidatorMore.



(** ** The published configuration *)

(** What [get_schema_metadata] does keep out of its [config] entry: every
    setting whose name, in lower case, contains [password]. *)
Lemma get_schema_metadata_drops_password `{MCPDataSource D} isoformat utcnow (d : D) view k v :
  dict_get "config" (match get_schema_metadata isoformat utcnow d with
                     | VDict fields => fields
                     | _ => []
                     end) = Some (VDict view) →
  (k, v) ∈ view → ¬ occurs_in "password" (lower k).
Proof.
  simpl. intros [= <-]. rewrite list_elem_of_filter. simpl.
  intros [Hk _] Hocc. apply contains_spec in Hocc. by rewrite Hocc in Hk.
Qed.

(** C2.  For a REST source configured with a bearer token, an API key and a
    password, the published view drops the password and keeps the token and
    the key, values included. *)
Theorem C2_token_and_key_published (isoformat : Z → string) (utcnow : Z) :
  let d := Fake "api"
             [("base_url", VStr "https://api.example.com");
              ("auth_type", VStr "bearer");
              ("auth_token", VStr "s3cr3t-token");
              ("api_key", VStr "k-123");
              ("password", VStr "hunter2")]
             false (inr (VDict [])) (VList []) 0 in
  get_schema_metadata isoformat utcnow d =
  VDict [("data_source", VStr "api");
         ("generated_at", VStr (isoformat utcnow));
         ("cache_ttl", VInt 3600);
         ("max_query_limit", VInt 1000);
         ("config", VDict [("base_url", VStr "https://api.example.com");
                           ("auth_type", VStr "bearer");
                           ("auth_token", VStr "s3cr3t-token");
                           ("api_key", VStr "k-123")])].
Proof. reflexivity. Qed.

(** ** The schema store *)

Lemma epoch_round_trip t : epoch_fromisoformat (epoch_isoformat t) = Some t.
Proof.
  unfold epoch_fromisoformat, epoch_isoformat.
  rewrite NilEmpty.isi. simpl. by rewrite DecimalZ.of_to.
Qed.

Module SchemaFacts.
Import SchemaManager.

(** The payload and the sidecar of a source are two files. *)
Lemma paths_differ dir name :
  _get_schema_file_path dir name ≠ _get_metadata_file_path dir name.
Proof.
  unfold _get_schema_file_path, _get_metadata_file_path, path_join.
  assert (startswith "/" (name +:+ "_schema.json") =
          startswith "/" (name +:+ "_metadata.json")) as <- by by destruct name.
  assert (name +:+ "_schema.json" ≠ name +:+ "_metadata.json") as Hne.
  { by intros ?%(inj (String.app name)). }
  destruct (startswith "/" _); [done|].
  destruct (_ || _).
  - by intros ?%(inj (String.app dir)).
  - by intros ?%(inj (String.app dir))%(inj (String.app "/")).
Qed.

(** Under the directory of the orchestrator, distinct sources have distinct
    files. *)
Lemma path_join_resources f :
  path_join "resources" f = if startswith "/" f then f else "resources/" +:+ f.
Proof. unfold path_join. by destruct (startswith "/" f). Qed.

Lemma path_join_resources_inj f g :
  path_join "resources" f = path_join "resources" g → f = g.
Proof.
  rewrite !path_join_resources.
  destruct (startswith "/" f) eqn:Hf, (startswith "/" g) eqn:Hg; [done| | |].
  - apply startswith_spec in Hf as [rest ->]. intros Heq. discriminate Heq.
  - apply startswith_spec in Hg as [rest ->]. intros Heq. discriminate Heq.
  - by intros ?%(inj (String.app "resources/")).
Qed.

Lemma schema_paths_inj n m :
  _get_schema_file_path "resources" n = _get_schema_file_path "resources" m → n = m.
Proof.
  intros Heq%path_join_resources_inj. by apply append_inj_r in Heq.
Qed.

Lemma schema_metadata_paths_differ n m :
  _get_schema_file_path "resources" n ≠ _get_metadata_file_path "resources" m.
Proof.
  intros Heq%path_join_resources_inj.
  change "_schema.json" with ("_schem" +:+ "a.json") in Heq.
  change "_metadata.json" with ("_metadat" +:+ "a.json") in Heq.
  rewrite <- !append_assoc in Heq. apply append_inj_r in Heq.
  change "_schem" with ("_sche" +:+ "m") in Heq.
  change "_metadat" with ("_metada" +:+ "t") in Heq.
  rewrite <- !append_assoc in Heq. by apply append_last_inj in Heq as [_ ?].
Qed.

(** What a save, finished or failed, leaves in the directory: the payload
    is written, and no file of another source is touched. *)
Lemma save_schema_files isoformat dumps dir name schema utcnow (fs fs' : gmap string value) :
  final (save_schema isoformat dumps dir name schema utcnow fs) = Some fs' →
  fs' !! _get_schema_file_path dir name = Some schema ∧
  ∀ path, path ≠ _get_schema_file_path dir name →
          path ≠ _get_metadata_file_path dir name →
          fs' !! path = fs !! path.
Proof.
  pose proof (paths_differ dir name) as Hne.
  unfold save_schema, py_get. munfold.
  destruct schema as [| | | | |d];
    try (simpl; intros [= <-]; split;
         [apply lookup_insert_eq|by intros; rewrite lookup_insert_ne]).
  destruct (default (VDict []) (dict_get "metadata" d)) as [| | | | |header];
    simpl; intros [= <-];
    try (split; [apply lookup_insert_eq|by intros; rewrite lookup_insert_ne]).
  split.
  - rewrite lookup_insert_ne by done. apply lookup_insert_eq.
  - intros path Hs Hm. by rewrite !lookup_insert_ne.
Qed.

Section Store.
Variable isoformat : Z → string.
Variable fromisoformat : string → option Z.
Variable dumps : option nat → value → string.
Hypothesis round_trip : ∀ t, fromisoformat (isoformat t) = Some t.

(** A save that returns has written the payload, then the sidecar. *)
Lemma save_schema_ret dir name schema utcnow fs fs' :
  save_schema isoformat dumps dir name schema utcnow fs = Ret () fs' →
  ∃ d header,
    schema = VDict d ∧
    default (VDict []) (dict_get "metadata" d) = VDict header ∧
    fs' = <[_get_metadata_file_path dir name :=
              metadata_document isoformat dumps name schema
                (default (VInt 3600) (dict_get "cache_ttl" header)) utcnow]>
            (<[_get_schema_file_path dir name := schema]> fs).
Proof.
  unfold save_schema, py_get. munfold.
  destruct schema as [| | | | |d]; try done.
  destruct (default (VDict []) (dict_get "metadata" d)) as [| | | | |header] eqn:Hh;
    try done.
  intros [= <-]. by exists d, header.
Qed.

(** What [get_schema] answers on a directory left by a save. *)
Lemma get_schema_after_save dir name schema ttl t0 now fs :
  get_schema fromisoformat dir name now
    (<[_get_metadata_file_path dir name := metadata_document isoformat dumps name schema ttl t0]>
       (<[_get_schema_file_path dir name := schema]> fs)) =
  Ret (match num_of ttl with
       | Some n =>
           if fits_timedelta n then if n <? now - t0 then VNone else schema
           else VNone
       | None => VNone
       end)
      (<[_get_metadata_file_path dir name := metadata_document isoformat dumps name schema ttl t0]>
         (<[_get_schema_file_path dir name := schema]> fs)).
Proof.
  unfold get_schema.
  rewrite lookup_insert_ne by (apply not_eq_sym, paths_differ).
  rewrite !lookup_insert_eq. unfold metadata_document, py_get, py_fromisoformat. munfold. simpl.
  rewrite round_trip. unfold timedelta_seconds. munfold.
  destruct (num_of ttl) as [n|]; [|done].
  destruct (fits_timedelta n); [|done]. by destruct (n <? now - t0).
Qed.
End Store.
End SchemaFacts.

(** C7, as the code has it.  When [save_schema] returns, the snapshot is a
    mapping and the sidecar written records the time of the save and, as
    [ttl_seconds], the [cache_ttl] of the snapshot's header (3600 without
    one).  If that is a number a [timedelta] can hold, [get_schema] at a
    reading [now] of the clock gives back the snapshot while
    [now - generated_at <= ttl_seconds] and gives [None] once
    [now - generated_at > ttl_seconds]; if it is a number too large for a
    [timedelta], or no number, [get_schema] gives [None] at every time. *)
Theorem C7_schema_round_trip (isoformat : Z → string) (fromisoformat : string → option Z)
    (dumps : option nat → value → string) (dir name : string) (schema : value)
    (generated_at : Z) (fs fs' : gmap string value) :
  (∀ t, fromisoformat (isoformat t) = Some t) →
  SchemaManager.save_schema isoformat dumps dir name schema generated_at fs = Ret () fs' →
  ∃ d header sidecar ttl_seconds,
    schema = VDict d ∧
    default (VDict []) (dict_get "metadata" d) = VDict header ∧
    ttl_seconds = default (VInt 3600) (dict_get "cache_ttl" header) ∧
    fs' !! SchemaManager._get_metadata_file_path dir name = Some (VDict sidecar) ∧
    dict_get "generated_at" sidecar = Some (VStr (isoformat generated_at)) ∧
    dict_get "ttl_seconds" sidecar = Some ttl_seconds ∧
    ∀ now,
      SchemaManager.get_schema fromisoformat dir name now fs' =
      Ret (match num_of ttl_seconds with
           | Some ttl =>
               if SchemaManager.fits_timedelta ttl
               then if ttl <? now - generated_at then VNone else schema
               else VNone
           | None => VNone
           end) fs'.
Proof.
  intros Hrt Hsave.
  apply SchemaFacts.save_schema_ret in Hsave as (d & header & -> & Hheader & ->).
  eexists d, header, _, _. do 3 (split; [done|]).
  split; [apply lookup_insert_eq|]. split; [done|]. split; [done|].
  intros now. by apply SchemaFacts.get_schema_after_save.
Qed.

Lemma C7_schema_round_trip_witness :
  let schema := VDict [("metadata", VDict [("cache_ttl", VInt 3600)]);
                       ("tables", VDict [])] in
  ∃ fs', SchemaManager.save_schema epoch_isoformat json_dumps "resources" "src" schema 50 ∅
         = Ret () fs' ∧
         SchemaManager.get_schema epoch_fromisoformat "resources" "src" 50 fs'
         = Ret schema fs' ∧
         SchemaManager.get_schema epoch_fromisoformat "resources" "src" 3651 fs'
         = Ret VNone fs'.
Proof.
  intros schema.
  destruct (SchemaManager.save_schema epoch_isoformat json_dumps "resources" "src" schema 50 ∅)
    as [[] fs'| |] eqn:Hsave; try discriminate Hsave.
  exists fs'. split; [reflexivity|].
  destruct (C7_schema_round_trip epoch_isoformat epoch_fromisoformat json_dumps
              "resources" "src" schema 50 ∅ fs' epoch_round_trip Hsave)
    as (d & header & sidecar & ttl & Hd & Hheader & -> & _ & _ & _ & Hget).
  injection Hd as <-. injection Hheader as <-.
  split; [exact (Hget 50)|exact (Hget 3651)].
Defined.

(** With a negative TTL in its header the snapshot is stale at the very
    moment it is saved: the immediate [get_schema] gives [None]. *)
Lemma C7_round_trip_counterexample :
  ∃ fs',
    SchemaManager.save_schema epoch_isoformat json_dumps "resources" "src"
      (VDict [("metadata", VDict [("cache_ttl", VInt (-1))])]) 100 ∅ = Ret () fs' ∧
    SchemaManager.get_schema epoch_fromisoformat "resources" "src" 100 fs' = Ret VNone fs'.
Proof. eexists. split; [reflexivity|]. by vm_compute. Qed.

(** ** Facts about the orchestrator *)

Module ServerFacts.
Import MCPServer.

Lemma validated_first_cases p new :
  new = [Validate p None] ∨ new = [Validate p (Some false)] ∨
  new = [Validate p (Some true)] ∨ new = [Validate p (Some true); Query p] →
  validated_first new.
Proof.
  intros Hnew i q Hi.
  destruct Hnew as [-> | [-> | [-> | ->]]];
    try (destruct i as [|[|i]]; simpl in Hi; discriminate Hi).
  destruct i as [|[|i]]; simpl in Hi; try discriminate Hi.
  injection Hi as <-. exists 0%nat. split; [lia|done].
Qed.

Section Facts.
Context {D : Type} `{MCPDataSource D}.
Variable isoformat : Z → string.
Variable dumps : option nat → value → string.
Variable py_hash : string → Z.
Variable clock : nat → Z.

Lemma on_source_invoke {A} source_name (c : option A → call) (m : M D A) (w : @t D) o :
  dict_get source_name (data_sources w) = Some o →
  on_source source_name (invoke c m) w =
  match m (self o) with
  | Ret a d =>
      Ret a (with_data_sources
               (dict_set source_name (Obj d (calls o ++ [c (Some a)]))) w)
  | Raise e d =>
      Raise e (with_data_sources
                 (dict_set source_name (Obj d (calls o ++ [c None]))) w)
  | Diverge => Diverge
  end.
Proof.
  intros Ho. unfold on_source, invoke. rewrite Ho. by destruct (m (self o)).
Qed.

Lemma caches_final {A} (m : M CacheManager.t A) (w w' : @t D) :
  final (caches m w) = Some w' → data_sources w' = data_sources w.
Proof.
  unfold caches, zoom. destruct (m (cache_manager w)); simpl; by intros [= <-].
Qed.

Lemma schema_manager_final {A} (m : M (gmap string value) A) (w w' : @t D) :
  final (schema_manager m w) = Some w' → data_sources w' = data_sources w.
Proof.
  unfold schema_manager, zoom. destruct (m (schema_files w)); simpl; by intros [= <-].
Qed.

Lemma calls_on_frame source_name (w w' : @t D) :
  data_sources w' = data_sources w → calls_on source_name w' = calls_on source_name w.
Proof. unfold calls_on. by intros ->. Qed.

Lemma calls_on_set source_name o (w : @t D) :
  calls_on source_name (with_data_sources (dict_set source_name o) w) = calls o.
Proof. unfold calls_on. simpl. by rewrite dict_get_set_eq. Qed.

Lemma bind_final {S A B} (m : M S A) (f : A → M S B) s s2 :
  final ((m ≫= f) s) = Some s2 →
  (∃ a s1, m s = Ret a s1 ∧ final (f a s1) = Some s2) ∨ (∃ e, m s = Raise e s2).
Proof.
  unfold mbind, M_bind. destruct (m s) as [a s1|e s1|]; simpl; [eauto| |done].
  intros [= <-]. eauto.
Qed.

Lemma try_except_final {S A} (m : M S A) (h : exn → M S A) s s2 :
  final (try_except m h s) = Some s2 →
  (∃ a, m s = Ret a s2) ∨ (∃ e s1, m s = Raise e s1 ∧ final (h e s1) = Some s2).
Proof.
  unfold try_except. destruct (m s) as [a s1|e s1|]; simpl; [|eauto|done].
  intros [= <-]. eauto.
Qed.

Lemma utcnow_final (w w' : @t D) :
  final (utcnow clock w) = Some w' → data_sources w' = data_sources w.
Proof. simpl. by intros [= <-]. Qed.

Lemma final_Ret {S A} (m : outcome S A) a s : m = Ret a s → final m = Some s.
Proof. by intros ->. Qed.

Lemma final_Raise {S A} (m : outcome S A) e s : m = Raise e s → final m = Some s.
Proof. by intros ->. Qed.

(** The calls the query tool makes on its source, whatever way it ends. *)
Lemma query_data_source_calls source_name query_text limit (w w' : @t D) o :
  dict_get source_name (data_sources w) = Some o →
  final (query_data_source dumps py_hash clock source_name query_text limit w) = Some w' →
  let p := [("query", VStr query_text); ("limit", VInt limit)] in
  ∃ new,
    calls_on source_name w' = calls o ++ new ∧
    (new = [Validate p None] ∨ new = [Validate p (Some false)] ∨
     new = [Validate p (Some true)] ∨ new = [Validate p (Some true); Query p]).
Proof.
  intros Ho Hfin p. unfold query_data_source in Hfin. fold p in Hfin.
  apply bind_final in Hfin as [(valid & w1 & Hval & Hfin)|[e Hval]];
    rewrite (on_source_invoke _ _ _ _ _ Ho) in Hval;
    destruct (validate_query _ (self o)) as [b d|e' d|] eqn:Hv; try discriminate Hval.
  2:{ injection Hval as <- <-. eexists. rewrite calls_on_set. simpl. eauto. }
  injection Hval as <- <-.
  destruct b; simpl in Hfin.
  2:{ injection Hfin as <-. eexists. rewrite calls_on_set. simpl. eauto. }
  set (o1 := Obj d (calls o ++ [Validate p (Some true)])) in *.
  assert (dict_get source_name
            (data_sources (with_data_sources (dict_set source_name o1) w)) = Some o1)
    as Ho1 by (simpl; apply dict_get_set_eq).
  apply bind_final in Hfin as [(now & w2 & Hnow & Hfin)|[e Hnow]]; [|done].
  apply final_Ret, utcnow_final in Hnow.
  apply bind_final in Hfin as [(cached & w3 & Hget & Hfin)|[e Hget]].
  2:{ apply final_Raise, caches_final in Hget. eexists.
      rewrite (calls_on_frame _ _ _ Hget), (calls_on_frame _ _ _ Hnow), calls_on_set.
      simpl. eauto. }
  apply final_Ret, caches_final in Hget.
  assert (dict_get source_name (data_sources w3) = Some o1) as Ho3
    by by rewrite Hget, Hnow.
  destruct (truthy cached).
  { injection Hfin as <-. eexists.
    rewrite (calls_on_frame _ _ _ Hget), (calls_on_frame _ _ _ Hnow), calls_on_set.
    simpl. eauto. }
  assert (∀ (w4 : @t D) new, calls_on source_name w4 = calls o1 ++ new →
            (new = [] ∨ new = [Query p]) →
            ∃ new, calls_on source_name w4 = calls o ++ new ∧
              (new = [Validate p None] ∨ new = [Validate p (Some false)] ∨
               new = [Validate p (Some true)] ∨ new = [Validate p (Some true); Query p]))
    as Hdone.
  { intros w4 new Hw4 [-> | ->]; eexists; rewrite Hw4; simpl; rewrite <- app_assoc;
      split; [reflexivity|simpl; eauto|reflexivity|simpl; eauto]. }
  apply try_except_final in Hfin as [[a Hbody]|(e & w4 & Hbody & Hfin)].
  - apply final_Ret in Hbody.
    apply bind_final in Hbody as [(rows & w4 & Hq & Hbody)|[e Hq]];
      rewrite (on_source_invoke _ _ _ _ _ Ho3) in Hq;
      destruct (query _ (self o1)) as [rows' d2|e' d2|]; try discriminate Hq.
    2:{ injection Hq as <- <-.
        eapply (Hdone _ [Query p]); [by rewrite calls_on_set|by right]. }
    injection Hq as <- <-.
    set (o2 := Obj d2 (calls o1 ++ [Query p])) in *.
    apply bind_final in Hbody as [(ttl & w5 & Httl & Hbody)|[e Httl]].
    2:{ unfold on_source in Httl. simpl in Httl. rewrite dict_get_set_eq in Httl.
        discriminate Httl. }
    unfold on_source in Httl. simpl in Httl. rewrite dict_get_set_eq in Httl.
    injection Httl as <- <-.
    apply bind_final in Hbody as [(t1 & w6 & Ht1 & Hbody)|[e Ht1]]; [|done].
    apply final_Ret, utcnow_final in Ht1.
    apply bind_final in Hbody as [(t2 & w7 & Ht2 & Hbody)|[e Ht2]]; [|done].
    apply final_Ret, utcnow_final in Ht2.
    apply bind_final in Hbody as [([] & w8 & Hset & Hbody)|[e Hset]].
    + apply final_Ret, caches_final in Hset. injection Hbody as <-.
      eapply (Hdone _ [Query p]); [|by right].
      by rewrite (calls_on_frame _ _ _ Hset), (calls_on_frame _ _ _ Ht2),
        (calls_on_frame _ _ _ Ht1), calls_on_set.
    + apply final_Raise, caches_final in Hset.
      eapply (Hdone _ [Query p]); [|by right].
      by rewrite (calls_on_frame _ _ _ Hset), (calls_on_frame _ _ _ Ht2),
        (calls_on_frame _ _ _ Ht1), calls_on_set.
  - injection Hfin as <-.
    apply final_Raise in Hbody.
    apply bind_final in Hbody as [(rows & w5 & Hq & Hbody)|[e' Hq]];
      rewrite (on_source_invoke _ _ _ _ _ Ho3) in Hq;
      destruct (query _ (self o1)) as [rows' d2|e'' d2|]; try discriminate Hq.
    2:{ injection Hq as <- <-.
        eapply (Hdone _ [Query p]); [by rewrite calls_on_set|by right]. }
    injection Hq as <- <-.
    set (o2 := Obj d2 (calls o1 ++ [Query p])) in *.
    apply bind_final in Hbody as [(ttl & w6 & Httl & Hbody)|[e' Httl]].
    2:{ unfold on_source in Httl. simpl in Httl. rewrite dict_get_set_eq in Httl.
        discriminate Httl. }
    unfold on_source in Httl. simpl in Httl. rewrite dict_get_set_eq in Httl.
    injection Httl as <- <-.
    apply bind_final in Hbody as [(t1 & w6 & Ht1 & Hbody)|[e' Ht1]]; [|done].
    apply final_Ret, utcnow_final in Ht1.
    apply bind_final in Hbody as [(t2 & w7 & Ht2 & Hbody)|[e' Ht2]]; [|done].
    apply final_Ret, utcnow_final in Ht2.
    apply bind_final in Hbody as [([] & w8 & Hset & Hbody)|[e' Hset]].
    + apply final_Ret, caches_final in Hset. injection Hbody as <-.
      eapply (Hdone _ [Query p]); [|by right].
      by rewrite (calls_on_frame _ _ _ Hset), (calls_on_frame _ _ _ Ht2),
        (calls_on_frame _ _ _ Ht1), calls_on_set.
    + apply final_Raise, caches_final in Hset.
      eapply (Hdone _ [Query p]); [|by right].
      by rewrite (calls_on_frame _ _ _ Hset), (calls_on_frame _ _ _ Ht2),
        (calls_on_frame _ _ _ Ht1), calls_on_set.
Qed.

(** The calls of the inherited health check: a connect if the source is not
    connected, then the probe query; never a validation. *)
Lemma health_check_calls utcnow (o o' : obj D) :
  final (health_check isoformat utcnow o) = Some o' →
  ∃ new,
    calls o' = calls o ++ new ∧
    (new = [Query health_probe] ∨ new = [Connect] ∨ new = [Connect; Query health_probe]) ∧
    (connected (self o) = true → new = [Query health_probe]).
Proof.
  unfold health_check, try_except, invoke. munfold. simpl.
  destruct (connected (self o)) eqn:Hc; simpl.
  - destruct (query health_probe (self o)) as [rows d|e d|]; simpl; [| |done];
      intros [= <-]; simpl; eauto 6.
  - destruct (connect (self o)) as [b d|e d|]; simpl; [| |done].
    + destruct (query health_probe d) as [rows d2|e d2|]; simpl; [| |done];
        intros [= <-]; simpl; rewrite <- app_assoc; eexists; (split; [done|]);
        split; eauto; done.
    + intros [= <-]. simpl. eexists. split; [done|]. split; eauto; done.
Qed.

(** *** The fan-out of [refresh_schema] *)





End Facts.
End ServerFacts.

(** ** Validation before execution *)

(** C1, as the code has it.  On the path of the per-source query tool the
    calls made on the source are a validation, followed by the query only if
    the validation answered [True]; a request that fails validation is
    answered by the structured rejection and the source sees no query.  The
    inherited [health_check] of a connected source makes one call, the probe
    query, and no validation. *)
Theorem C1_query_tool_validates_first {D : Type} `{MCPDataSource D}
    (isoformat : Z → string) (dumps : option nat → value → string)
    (py_hash : string → Z) (clock : nat → Z) :
  (∀ source_name query_text limit (w w' : @MCPServer.t D) o,
     dict_get source_name (MCPServer.data_sources w) = Some o →
     final (MCPServer.query_data_source dumps py_hash clock
              source_name query_text limit w) = Some w' →
     ∃ new, MCPServer.calls_on source_name w' = calls o ++ new ∧ validated_first new) ∧
  (∀ source_name query_text limit (w : @MCPServer.t D) o d,
     dict_get source_name (MCPServer.data_sources w) = Some o →
     validate_query [("query", VStr query_text); ("limit", VInt limit)] (self o)
       = Ret false d →
     ∃ w', MCPServer.query_data_source dumps py_hash clock
             source_name query_text limit w
           = Ret (MCPServer.error_json dumps "Invalid query parameters") w' ∧
           MCPServer.calls_on source_name w' =
             calls o ++ [Validate [("query", VStr query_text); ("limit", VInt limit)]
                           (Some false)]) ∧
  (∀ utcnow (o o' : obj D),
     connected (self o) = true →
     final (health_check isoformat utcnow o) = Some o' →
     calls o' = calls o ++ [Query health_probe]).
Proof.
  split; [|split].
  - intros source_name query_text limit w w' o Ho Hfin.
    destruct (ServerFacts.query_data_source_calls dumps py_hash clock
                source_name query_text limit w w' o Ho Hfin) as (new & Hcalls & Hnew).
    exists new. split; [done|]. by eapply ServerFacts.validated_first_cases.
  - intros source_name query_text limit w o d Ho Hv.
    unfold MCPServer.query_data_source. unfold mbind, M_bind at 1.
    rewrite (ServerFacts.on_source_invoke _ _ _ _ _ Ho), Hv. simpl.
    eexists. split; [done|]. apply ServerFacts.calls_on_set.
  - intros utcnow o o' Hc Hfin.
    destruct (ServerFacts.health_check_calls isoformat utcnow o o' Hfin)
      as (new & Hcalls & _ & Hnew).
    by rewrite Hcalls, (Hnew Hc).
Qed.

Lemma C1_query_tool_validates_first_witness :
  let db := Fake "db" [] true (inr (VDict [])) (VList []) 0 in
  let w := MCPServer.mk [("db", Obj db [])] ∅ CacheManager.__init__ 0 in
  ∃ w', MCPServer.query_data_source json_dumps length_hash counting_clock
          "db" "DROP TABLE t" 10 w
        = Ret (MCPServer.error_json json_dumps "Invalid query parameters") w' ∧
        MCPServer.calls_on "db" w' =
          [Validate [("query", VStr "DROP TABLE t"); ("limit", VInt 10)] (Some false)].
Proof.
  intros db w.
  destruct (C1_query_tool_validates_first epoch_isoformat json_dumps length_hash
              counting_clock) as (_ & Hreject & _).
  apply (Hreject "db" "DROP TABLE t" 10 w (Obj db []) db); reflexivity.
Defined.

(** A connected source, one inherited health check: the source has run the
    probe query and no validation was made. *)
Lemma C1_health_check_counterexample :
  let db := Fake "db" [] true (inr (VDict [])) (VList []) 0 in
  ∃ status o',
    health_check epoch_isoformat 0 (Obj db []) = Ret status o' ∧
    calls o' = [Query health_probe] ∧
    fake_queries (self o') = 1%nat ∧
    ¬ validated_first (calls o').
Proof.
  intros db. eexists _, _. split; [reflexivity|]. simpl.
  split; [done|]. split; [done|].
  intros Hv. destruct (Hv 0%nat health_probe eq_refl) as (j & Hj & _). lia.
Qed.

(** ** Partial failure of the refresh fan-out *)



(** ** More about the cache engine: the states it can reach *)

Module CacheMore.
Import TTLCache CacheRun CacheFacts.

Lemma dict_del_filter {A} k (d : list (string * A)) :
  dict_del k d = filter (λ kv, kv.1 ≠ k) d.
Proof.
  induction d as [|[k' v] d IH]; [done|]. simpl. rewrite filter_cons. simpl.
  destruct (String.eqb_spec k k') as [->|Hne].
  - by rewrite decide_False by (by intros ?).
  - rewrite decide_True by (by intros ->). by rewrite IH.
Qed.

Lemma dict_keys_del_sublist {A} k (d : list (string * A)) :
  dict_keys (dict_del k d) `sublist_of` dict_keys d.
Proof.
  unfold dict_keys. rewrite dict_del_filter. apply fmap_sublist, sublist_filter.
Qed.

Lemma dict_get_is_Some_keys {A} k (d : list (string * A)) :
  is_Some (dict_get k d) ↔ k ∈ dict_keys d.
Proof.
  pose proof (dict_get_None_keys k d) as Hk.
  destruct (dict_get k d) eqn:Hg; split; intros Hin.
  - destruct (decide (k ∈ dict_keys d)) as [|Hn]; [done|]. by apply Hk in Hn.
  - by eexists.
  - by destruct Hin.
  - by destruct (proj1 Hk eq_refl).
Qed.

Lemma dict_keys_set_present {A} k (v : A) d :
  is_Some (dict_get k d) → dict_keys (dict_set k v d) = dict_keys d.
Proof.
  unfold dict_keys. induction d as [|[k' v'] d IH]; simpl; [by intros [? ?]|].
  destruct (String.eqb_spec k k') as [->|Hne]; [done|]. intros H.
  rewrite !fmap_cons. f_equal. by apply IH.
Qed.

Lemma dict_keys_set_new {A} k (v : A) d :
  dict_get k d = None → dict_keys (dict_set k v d) = dict_keys d ++ [k].
Proof. intros H. rewrite dict_set_absent by done. unfold dict_keys. by rewrite fmap_app. Qed.

Lemma dict_get_set {A} k k' (v : A) d :
  dict_get k (dict_set k' v d) = if String.eqb k k' then Some v else dict_get k d.
Proof.
  destruct (String.eqb_spec k k') as [->|Hne].
  - apply dict_get_set_eq.
  - by apply dict_get_set_ne.
Qed.

Lemma NoDup_dict_set {A} k (v : A) d :
  NoDup (dict_keys d) → NoDup (dict_keys (dict_set k v d)).
Proof.
  intros Hnd. destruct (dict_get k d) eqn:Hg.
  - rewrite dict_keys_set_present; [done|]. rewrite Hg. by eexists.
  - rewrite dict_keys_set_new by done. apply NoDup_app. split; [done|]. split.
    + intros x Hx ->%list_elem_of_singleton. by apply dict_get_None_keys in Hg.
    + apply NoDup_singleton.
Qed.

(** *** The invariant, operation by operation *)

Lemma well_formed_init max_size default_ttl : well_formed (__init__ max_size default_ttl).
Proof.
  split; [apply NoDup_nil_2|]. by intros k [? ?].
Qed.

Lemma well_formed_drop_key key c :
  well_formed c →
  well_formed (if dict_mem key (_cache c) then with_cache (dict_del key) c else c).
Proof.
  intros [Hnd Hst]. destruct (dict_mem key (_cache c)); [|done]. split; simpl.
  - eapply sublist_NoDup; [done|apply dict_keys_del_sublist].
  - intros k Hk. simpl in Hk. apply Hst.
    destruct (decide (k = key)) as [->|Hne].
    + rewrite dict_get_del_eq in Hk. by destruct Hk.
    + by rewrite dict_get_del_ne in Hk.
Qed.

Lemma well_formed_pop_key c key : well_formed c → well_formed (pop_key c key).
Proof.
  intros [Hnd Hst]. split; simpl.
  - eapply sublist_NoDup; [done|apply dict_keys_del_sublist].
  - intros k Hk. simpl in Hk. destruct (decide (k = key)) as [->|Hne].
    + rewrite dict_get_del_eq in Hk. by destruct Hk.
    + rewrite dict_get_del_ne in Hk by done. simpl.
      rewrite lookup_delete_ne by done. by apply Hst.
Qed.

Lemma well_formed_foldl_pop c ks : well_formed c → well_formed (foldl pop_key c ks).
Proof.
  revert c. induction ks as [|k ks IH]; intros c Hwf; [done|].
  simpl. by apply IH, well_formed_pop_key.
Qed.

Lemma well_formed_evict_lru c c' :
  well_formed c → _evict_lru c = Ret () c' → well_formed c'.
Proof.
  intros Hwf. unfold _evict_lru.
  destruct (_cache c) as [|[k0 v0] rest] eqn:Hc; intros [= <-]; [done|].
  destruct Hwf as [Hnd Hst]. rewrite Hc in Hnd.
  unfold dict_keys in Hnd. rewrite fmap_cons in Hnd. apply NoDup_cons in Hnd as [Hk0 Hnd].
  split; simpl; [done|]. intros k Hk.
  assert (k ≠ k0) as Hne.
  { intros ->. apply Hk0. by apply dict_get_is_Some_keys. }
  simpl in *. rewrite lookup_delete_ne by done. apply Hst. rewrite Hc. simpl.
  by destruct (String.eqb_spec k k0).
Qed.

Lemma well_formed_evict_while fuel c c' :
  well_formed c → evict_while fuel c = Ret () c' → well_formed c'.
Proof.
  revert c. induction fuel as [|fuel IH]; intros c Hwf; simpl;
    destruct (max_size c <=? Z.of_nat (length (_cache c))); try done;
    try (by intros [= <-]).
  unfold mbind, M_bind.
  destruct (_evict_lru c) as [[] c1| |] eqn:H1; [|done..].
  apply IH. by eapply well_formed_evict_lru.
Qed.

Lemma well_formed_store key v stamp c :
  well_formed c →
  well_formed (with_timestamps (insert key stamp) (with_cache (dict_set key v) c)).
Proof.
  intros [Hnd Hst]. split; simpl; [by apply NoDup_dict_set|].
  intros k Hk. simpl in *. rewrite dict_get_set in Hk.
  destruct (decide (k = key)) as [Heq|Hne].
  - subst k. rewrite lookup_insert_eq. by eexists.
  - rewrite lookup_insert_ne by done. apply Hst.
    by destruct (String.eqb_spec k key).
Qed.

Lemma well_formed_move key v c :
  well_formed c → is_Some (dict_get key (_cache c)) →
  well_formed (with_cache (λ d, dict_set key v (dict_del key d)) c).
Proof.
  intros [Hnd Hst] Hkey. split; simpl.
  - apply NoDup_dict_set. eapply sublist_NoDup; [done|apply dict_keys_del_sublist].
  - intros k Hk. simpl in *. rewrite dict_get_set in Hk.
    destruct (decide (k = key)) as [Heq|Hne].
    + subst k. by apply Hst.
    + destruct (String.eqb_spec k key); [done|].
      rewrite dict_get_del_ne in Hk by done. by apply Hst.
Qed.

(** *** How each operation can end *)

Lemma expired_keys_raise c now items s e s' :
  expired_keys c now items s = Raise e s' → s' = s ∧ exn_cls e = TypeError.
Proof.
  revert e s'. induction items as [|[k0 ts0] items IH]; intros e s'; simpl; [done|].
  unfold mbind, M_bind at 1. unfold py_gt at 1.
  destruct (num_of (entry_ttl c k0)) as [t0|]; munfold; [|by intros [= <- <-]].
  destruct (expired_keys c now items s) as [ks s1|e1 s1|] eqn:Hrest; [done| |done].
  intros [= <- <-]. by apply IH.
Qed.

Lemma _evict_expired_raise now c e s :
  _evict_expired now c = Raise e s → s = c ∧ exn_cls e = TypeError.
Proof.
  unfold _evict_expired. unfold mbind, M_bind at 1.
  destruct (expired_keys _ _ _ _) as [ks s1|e1 s1|] eqn:Hks; [done| |done].
  intros [= <- <-]. by apply expired_keys_raise in Hks.
Qed.

Lemma well_formed_evict_expired now c c' :
  well_formed c → final (_evict_expired now c) = Some c' → well_formed c'.
Proof.
  intros Hwf. destruct (_evict_expired now c) as [[] c1|e c1|] eqn:H1; simpl; [| |done].
  - apply _evict_expired_ret in H1 as (ks & -> & _). intros [= <-].
    by apply well_formed_foldl_pop.
  - apply _evict_expired_raise in H1 as [-> _]. by intros [= <-].
Qed.

Lemma get_final key now c c' :
  final (get key now c) = Some c' →
  c' = c ∨ ∃ v, dict_get key (_cache c) = Some v ∧
                c' = with_cache (λ d, dict_set key v (dict_del key d)) c.
Proof.
  unfold get, dict_mem. destruct (dict_get key (_cache c)) as [v|] eqn:Hv; simpl;
    [|intros [= <-]; by left].
  unfold mbind, M_bind at 1. unfold _is_expired.
  destruct (_timestamps c !! key) as [ts|]; [|intros [= <-]; by left].
  unfold py_gt. destruct (num_of (entry_ttl c key)) as [t|]; munfold;
    [|intros [= <-]; by left].
  destruct (t <? now - ts); simpl; intros [= <-]; [by left|].
  right. exists v. by rewrite Hv.
Qed.

Lemma well_formed_set key val ttl t1 t2 c c' :
  well_formed c → final (set key val ttl t1 t2 c) = Some c' → well_formed c'.
Proof.
  intros Hwf. rewrite set_unfold.
  pose proof (well_formed_drop_key key c Hwf) as Hwf1.
  destruct (_evict_expired t1 _) as [[] c2|e c2|] eqn:H2; [| |done].
  - assert (well_formed c2) as Hwf2.
    { eapply well_formed_evict_expired; [exact Hwf1|]. by rewrite H2. }
    destruct (evict_while _ c2) as [[] c3|e c3|] eqn:H3; simpl; [| |done].
    + intros [= <-]. apply well_formed_store. by eapply well_formed_evict_while.
    + by apply evict_while_no_raise in H3.
  - simpl. intros [= <-]. by apply _evict_expired_raise in H2 as [-> _].
Qed.

Lemma well_formed_after o c c' : well_formed c → after o c = Some c' → well_formed c'.
Proof.
  intros Hwf. destruct o as [key now|key val ttl t1 t2|key| |now|now]; simpl.
  - intros [->|(v & Hv & ->)]%get_final; [done|].
    apply well_formed_move; [done|]. by eexists.
  - by apply well_formed_set.
  - unfold delete. destruct (dict_mem key (_cache c)); simpl; [|by intros [= <-]].
    destruct (_timestamps c !! key); simpl; intros [= <-].
    + by apply (well_formed_pop_key c key).
    + destruct Hwf as [Hnd Hst]. split; simpl.
      * eapply sublist_NoDup; [done|apply dict_keys_del_sublist].
      * intros k Hk. simpl in *. apply Hst.
        destruct (decide (k = key)) as [->|Hne].
        -- rewrite dict_get_del_eq in Hk. by destruct Hk.
        -- by rewrite dict_get_del_ne in Hk.
  - intros [= <-]. split; [apply NoDup_nil_2|]. by intros k [? ?].
  - unfold size. intros Hfin.
    destruct (_evict_expired now c) as [[] c1|e c1|] eqn:H1;
      unfold mbind, M_bind in Hfin; rewrite H1 in Hfin; simpl in Hfin; [| |done];
      injection Hfin as <-; eapply well_formed_evict_expired; try done;
      by rewrite H1.
  - unfold keys. intros Hfin.
    destruct (_evict_expired now c) as [[] c1|e c1|] eqn:H1;
      unfold mbind, M_bind in Hfin; rewrite H1 in Hfin; simpl in Hfin; [| |done];
      injection Hfin as <-; eapply well_formed_evict_expired; try done;
      by rewrite H1.
Qed.

Lemma params_after o c c' :
  after o c = Some c' → max_size c' = max_size c ∧ default_ttl c' = default_ttl c.
Proof.
  destruct o as [key now|key val ttl t1 t2|key| |now|now]; simpl.
  - by intros [->|(v & Hv & ->)]%get_final.
  - rewrite set_unfold. destruct (drop_key_params key c) as (Hm1 & Hd1 & _).
    destruct (_evict_expired t1 _) as [[] c2|e c2|] eqn:H2; [| |done].
    + apply _evict_expired_ret in H2 as (ks & -> & _).
      destruct (evict_while _ _) as [[] c3|e c3|] eqn:H3; simpl; [| |done].
      * apply evict_while_ret in H3 as (_ & Hm3 & Hd3 & _). intros [= <-]. simpl.
        rewrite Hm3, Hd3, !(proj1 (foldl_pop_key_params _ ks)),
          !(proj2 (foldl_pop_key_params _ ks)). done.
      * by apply evict_while_no_raise in H3.
    + apply _evict_expired_raise in H2 as [-> _]. simpl. by intros [= <-].
  - unfold delete. destruct (dict_mem key (_cache c)); simpl; [|by intros [= <-]].
    by destruct (_timestamps c !! key); simpl; intros [= <-].
  - by intros [= <-].
  - unfold size. unfold mbind, M_bind.
    destruct (_evict_expired now c) as [[] c1|e c1|] eqn:H1; simpl; [| |done].
    + apply _evict_expired_ret in H1 as (ks & -> & _). intros [= <-].
      apply foldl_pop_key_params.
    + apply _evict_expired_raise in H1 as [-> _]. by intros [= <-].
  - unfold keys. unfold mbind, M_bind.
    destruct (_evict_expired now c) as [[] c1|e c1|] eqn:H1; simpl; [| |done].
    + apply _evict_expired_ret in H1 as (ks & -> & _). intros [= <-].
      apply foldl_pop_key_params.
    + apply _evict_expired_raise in H1 as [-> _]. by intros [= <-].
Qed.

Lemma delete_stamped key c :
  stamped c → ∃ b c', delete key c = Ret b c'.
Proof.
  intros Hst. unfold delete, dict_mem.
  destruct (dict_get key (_cache c)) eqn:Hv; [|by eexists _, _].
  destruct (Hst key) as [ts Hts]; [by eexists|]. rewrite Hts. by eexists _, _.
Qed.

Lemma reachable_invariant max_size default_ttl c :
  reachable max_size default_ttl c →
  well_formed c ∧ TTLCache.max_size c = max_size ∧ TTLCache.default_ttl c = default_ttl.
Proof.
  induction 1 as [|c o c' _ (Hwf & Hm & Hd) Hstep].
  - split; [apply well_formed_init|done].
  - split; [by eapply well_formed_after|].
    apply params_after in Hstep as [-> ->]. done.
Qed.

End CacheMore.
(** ** What [set], [keys] and [size] leave behind, exactly *)

Module CacheExact.
Import TTLCache CacheRun CacheFacts CacheMore.

Lemma filter_all {A} (P : A → Prop) `{∀ x, Decision (P x)} (l : list A) :
  (∀ x, x ∈ l → P x) → filter P l = l.
Proof.
  induction l as [|x l IH]; intros Hall; [done|].
  rewrite filter_cons_True by (apply Hall; left).
  f_equal. apply IH. intros y Hy. apply Hall. by right.
Qed.

Lemma foldl_pop_key_filter c ks :
  _cache (foldl pop_key c ks) = filter (λ kv, kv.1 ∉ ks) (_cache c).
Proof.
  revert c. induction ks as [|k ks IH]; intros c; cbn [foldl].
  - symmetry. apply filter_all. intros x _. apply not_elem_of_nil.
  - rewrite IH. unfold pop_key. simpl. rewrite dict_del_filter, list_filter_filter.
    apply list_filter_iff. intros [k' v]. simpl. rewrite not_elem_of_cons. tauto.
Qed.

Lemma foldl_pop_key_absent c ks :
  (∀ k, k ∈ ks → dict_get k (_cache c) = None) →
  _cache (foldl pop_key c ks) = _cache c.
Proof.
  intros Hks. rewrite foldl_pop_key_filter. apply filter_all.
  intros [k v] Hin Hk. simpl in Hk. apply Hks in Hk.
  apply dict_get_None_keys in Hk. apply Hk. unfold dict_keys.
  apply list_elem_of_fmap. by exists (k, v).
Qed.

Lemma dict_del_length_lt {A} k (d : list (string * A)) :
  is_Some (dict_get k d) → (length (dict_del k d) < length d)%nat.
Proof.
  induction d as [|[k' v] d IH]; simpl; [by intros [? ?]|].
  destruct (String.eqb_spec k k') as [->|Hne]; intros H.
  - pose proof (dict_del_length k' d). lia.
  - simpl. apply IH in H. lia.
Qed.

(** The eviction loop drops the [n] oldest entries, [n] being what the
    cache holds beyond [max_size - 1], and their stamps. *)
Lemma evict_while_exact fuel c :
  1 ≤ max_size c → (length (_cache c) ≤ fuel)%nat →
  let n := (length (_cache c) + 1 - Z.to_nat (max_size c))%nat in
  ∃ c', evict_while fuel c = Ret () c' ∧
        _cache c' = drop n (_cache c) ∧
        max_size c' = max_size c ∧ default_ttl c' = default_ttl c ∧
        ∀ k, _timestamps c' !! k =
             if decide (k ∈ dict_keys (take n (_cache c))) then None
             else _timestamps c !! k.
Proof.
  revert c. induction fuel as [|fuel IH]; intros c Hmax Hlen n; subst n.
  - destruct (_cache c) as [|] eqn:Hc; [|simpl in Hlen; lia].
    exists c. cbn [evict_while]. rewrite Hc. cbn [length].
    destruct (Z.leb_spec (max_size c) (Z.of_nat 0)); [lia|].
    replace (0 + 1 - Z.to_nat (max_size c))%nat with 0%nat by lia.
    by split_and!.
  - cbn [evict_while].
    destruct (Z.leb_spec (max_size c) (Z.of_nat (length (_cache c)))) as [Hfull|Hroom].
    + unfold mbind, M_bind, _evict_lru.
      destruct (_cache c) as [|[key v] rest] eqn:Hc; [simpl in Hfull; lia|].
      set (c1 := with_timestamps (base.delete key) (with_cache (λ _, rest) c)).
      destruct (IH c1) as (c' & Hrun & Hcache & Hm & Hd & Hts);
        [done|simpl in *; lia|].
      exists c'. split; [done|]. simpl in Hcache, Hm, Hd, Hts, Hfull |- *.
      replace (S (length rest + 1) - Z.to_nat (max_size c))%nat
        with (S (length rest + 1 - Z.to_nat (max_size c))) by lia.
      split_and!; try done. intros k. rewrite Hts. simpl.
      destruct (decide (k ∈ dict_keys (take _ rest))) as [Hin|Hout].
      * rewrite decide_True; [done|]. by apply list_elem_of_further.
      * destruct (decide (k = key)) as [->|Hne].
        -- rewrite lookup_delete_eq. rewrite decide_True; [done|]. apply list_elem_of_here.
        -- rewrite lookup_delete_ne by done. rewrite decide_False; [done|].
           rewrite not_elem_of_cons. done.
    + exists c. replace (length (_cache c) + 1 - Z.to_nat (max_size c))%nat with 0%nat by lia.
      cbn [evict_while]. destruct (Z.leb_spec (max_size c) (Z.of_nat (length (_cache c))));
        [lia|]. by split_and!.
Qed.

(** [set] when no other key is expired.  The call's own key is taken out
    of [_cache] before the sweep, so its old stamp and TTL do not matter. *)
Lemma set_exact key val ttl t1 t2 c :
  1 ≤ max_size c →
  (∀ k ts, k ≠ key → _timestamps c !! k = Some ts →
           ∃ t, num_of (entry_ttl c k) = Some t ∧ t1 - ts ≤ t) →
  let d1 := dict_del key (_cache c) in
  let n := (length d1 + 1 - Z.to_nat (max_size c))%nat in
  ∃ c', set key val ttl t1 t2 c = Ret () c' ∧
        _cache c' = drop n d1 ++ [(key, cache_value val ttl)] ∧
        max_size c' = max_size c ∧ default_ttl c' = default_ttl c ∧
        ∀ k, _timestamps c' !! k =
             if decide (k = key) then Some t2
             else if decide (k ∈ dict_keys (take n d1)) then None
             else _timestamps c !! k.
Proof.
  intros Hmax Hfresh d1 n. rewrite set_unfold.
  set (c1 := if dict_mem key (_cache c) then with_cache (dict_del key) c else c).
  assert (_cache c1 = d1) as Hc1.
  { subst c1 d1. destruct (dict_mem key (_cache c)) eqn:Hmem; [done|].
    apply dict_mem_false in Hmem. by rewrite dict_del_absent. }
  assert (_timestamps c1 = _timestamps c ∧ max_size c1 = max_size c ∧
          default_ttl c1 = default_ttl c) as (Hts1 & Hm1 & Hd1).
  { subst c1. by destruct (dict_mem key (_cache c)). }
  assert (dict_get key (_cache c1) = None) as Hkey1.
  { rewrite Hc1. apply dict_get_del_eq. }
  assert (entry_ttl c1 key = VInt (default_ttl c1)) as Hown.
  { unfold entry_ttl. by rewrite Hkey1. }
  destruct (_evict_expired_total t1 c1) as [c2 H2].
  { intros k ts Hk. destruct (decide (k = key)) as [->|Hne].
    - rewrite Hown. by eexists.
    - rewrite Hts1 in Hk. destruct (Hfresh k ts Hne Hk) as (t & Ht & _).
      subst c1. rewrite entry_ttl_drop_key by done. rewrite Ht. by eexists. }
  rewrite H2. apply _evict_expired_ret in H2 as (ks & -> & Hks).
  assert (∀ k, k ∈ ks → k = key) as Honly.
  { intros k (ts & t & Hk & Ht & Hlt)%Hks.
    destruct (decide (k = key)) as [|Hne]; [done|]. rewrite Hts1 in Hk.
    destruct (Hfresh k ts Hne Hk) as (t' & Ht' & Hle).
    subst c1. rewrite entry_ttl_drop_key in Ht by done. rewrite Ht in Ht'.
    injection Ht' as <-. lia. }
  assert (_cache (foldl pop_key c1 ks) = d1) as Hc2.
  { rewrite foldl_pop_key_absent; [done|]. by intros k ->%Honly. }
  destruct (foldl_pop_key_params c1 ks) as [Hm2 Hd2].
  destruct (evict_while_exact (length (_cache (foldl pop_key c1 ks))) (foldl pop_key c1 ks))
    as (c3 & H3 & Hc3 & Hm3 & Hd3 & Hts3); [lia|done|].
  rewrite H3. eexists. split; [done|]. simpl.
  rewrite Hc2, Hm2, Hm1 in Hc3. rewrite Hc2, Hm2, Hm1 in Hts3.
  fold n in Hc3, Hts3. rewrite Hc3. repeat split.
  - apply dict_set_absent, dict_get_drop_None. subst d1. apply dict_get_del_eq.
  - lia.
  - congruence.
  - intros k. destruct (decide (k = key)) as [->|Hne].
    + by rewrite lookup_insert_eq.
    + rewrite lookup_insert_ne by done. rewrite Hts3.
      destruct (decide (k ∈ dict_keys (take n d1))); [done|].
      rewrite foldl_pop_key_timestamps, Hts1.
      rewrite decide_False; [done|]. by intros ->%Honly.
Qed.

(** The sweep, as a filter on the entries. *)
Lemma _evict_expired_filter now c c' :
  _evict_expired now c = Ret () c' →
  ∃ ks : list string,
        (∀ k, k ∈ ks ↔
              ∃ ts t, _timestamps c !! k = Some ts ∧
                      num_of (entry_ttl c k) = Some t ∧ t < now - ts) ∧
        _cache c' = filter (λ kv, kv.1 ∉ ks) (_cache c) ∧
        (∀ k, _timestamps c' !! k = if decide (k ∈ ks) then None else _timestamps c !! k) ∧
        max_size c' = max_size c ∧ default_ttl c' = default_ttl c.
Proof.
  intros H. apply _evict_expired_ret in H as (ks & -> & Hks). exists ks. split; [done|].
  split; [apply foldl_pop_key_filter|]. split; [apply foldl_pop_key_timestamps|].
  apply foldl_pop_key_params.
Qed.

Lemma dict_get_filter_keys {A} (P : string → Prop) `{∀ k, Decision (P k)} k
    (d : list (string * A)) :
  dict_get k (filter (λ kv, P kv.1) d) = if decide (P k) then dict_get k d else None.
Proof.
  induction d as [|[k' v] d IH]; simpl; [by destruct (decide (P k))|].
  rewrite filter_cons. simpl. destruct (decide (P k')) as [Hk'|Hk']; simpl.
  - rewrite IH. destruct (String.eqb_spec k k') as [->|Hne]; [by rewrite decide_True|done].
  - rewrite IH. destruct (String.eqb_spec k k') as [->|Hne]; [|done].
    by destruct (decide (P k')).
Qed.

Lemma entry_ttl_ext c c' k :
  dict_get k (_cache c') = dict_get k (_cache c) → default_ttl c' = default_ttl c →
  entry_ttl c' k = entry_ttl c k.
Proof. unfold entry_ttl. by intros -> ->. Qed.

Lemma dict_del_perm {A} key (v : A) d :
  NoDup (dict_keys d) → dict_get key d = Some v → d ≡ₚ (key, v) :: dict_del key d.
Proof.
  unfold dict_keys. induction d as [|[k' v'] d IH]; [done|].
  rewrite fmap_cons, NoDup_cons. simpl. intros [Hk' Hnd].
  destruct (String.eqb_spec key k') as [->|Hne].
  - intros [= ->]. rewrite dict_del_absent; [done|]. by apply dict_get_None_keys.
  - intros Hv. rewrite (IH Hnd Hv) at 1. apply Permutation_swap.
Qed.

(** How a [get] can end. *)
Lemma get_ret key now c v c' :
  get key now c = Ret v c' →
  (v = VNone ∧ c' = c) ∨
  (dict_get key (_cache c) = Some v ∧
   c' = with_cache (λ d, dict_set key v (dict_del key d)) c ∧
   ∃ ts t, _timestamps c !! key = Some ts ∧
           num_of (entry_ttl c key) = Some t ∧ now - ts ≤ t).
Proof.
  unfold get, dict_mem. destruct (dict_get key (_cache c)) as [v0|] eqn:Hv; simpl;
    [|intros [= <- <-]; by left].
  unfold mbind, M_bind at 1. unfold _is_expired.
  destruct (_timestamps c !! key) as [ts|] eqn:Hts; [|intros [= <- <-]; by left].
  unfold py_gt. destruct (num_of (entry_ttl c key)) as [t|] eqn:Ht; munfold; [|done].
  destruct (Z.ltb_spec t (now - ts)); intros [= <- <-]; [by left|].
  right. rewrite Hv. simpl. split; [done|]. split; [done|]. by exists ts, t.
Qed.

Lemma get_raise key now c e c' :
  get key now c = Raise e c' → c' = c ∧ exn_cls e = TypeError.
Proof.
  unfold get, dict_mem. destruct (dict_get key (_cache c)) as [v0|] eqn:Hv; simpl; [|done].
  unfold mbind, M_bind at 1. unfold _is_expired.
  destruct (_timestamps c !! key) as [ts|] eqn:Hts; [|done].
  unfold py_gt. destruct (num_of (entry_ttl c key)) as [t|] eqn:Ht; munfold.
  - by destruct (t <? now - ts).
  - by intros [= <- <-].
Qed.

(** A sweep that returns has compared every stamped key's TTL. *)
Lemma expired_keys_ret_numeric c now items s ks s' :
  expired_keys c now items s = Ret ks s' →
  ∀ k ts, (k, ts) ∈ items → is_Some (num_of (entry_ttl c k)).
Proof.
  revert ks s'. induction items as [|[k0 ts0] items IH]; intros ks s'; simpl.
  - intros _ k ts Hin. by apply elem_of_nil in Hin.
  - unfold mbind, M_bind at 1. unfold py_gt at 1.
    destruct (num_of (entry_ttl c k0)) as [t0|] eqn:Ht0; munfold; [|done].
    destruct (expired_keys c now items s) as [ks1 s1|e1 s1|] eqn:Hrest; [|done..].
    intros _ k ts [[= -> ->]|Hin]%elem_of_cons.
    + rewrite Ht0. by eexists.
    + by eapply IH.
Qed.

Lemma _evict_expired_ret_numeric now c c' :
  _evict_expired now c = Ret () c' →
  ∀ k ts, _timestamps c !! k = Some ts → is_Some (num_of (entry_ttl c k)).
Proof.
  unfold _evict_expired. unfold mbind, M_bind at 1.
  destruct (expired_keys _ _ _ _) as [ks s1|e1 s1|] eqn:Hks; [|done..].
  intros _ k ts Hk. eapply expired_keys_ret_numeric; [exact Hks|].
  by apply elem_of_map_to_list.
Qed.

(** One stamped entry whose TTL is no number makes every sweep raise. *)
Lemma expired_keys_poison c now items s k ts :
  (k, ts) ∈ items → num_of (entry_ttl c k) = None →
  ∃ e, expired_keys c now items s = Raise e s ∧ exn_cls e = TypeError.
Proof.
  intros Hin Hbad. induction items as [|[k0 ts0] items IH]; simpl.
  - by apply elem_of_nil in Hin.
  - unfold mbind, M_bind at 1. unfold py_gt at 1.
    destruct (num_of (entry_ttl c k0)) as [t0|] eqn:Ht0; munfold; [|by eexists].
    apply elem_of_cons in Hin as [[= -> ->]|Hin]; [congruence|].
    destruct (IH Hin) as (e & -> & He). by exists e.
Qed.

Lemma _evict_expired_poison now c k ts :
  _timestamps c !! k = Some ts → num_of (entry_ttl c k) = None →
  ∃ e, _evict_expired now c = Raise e c ∧ exn_cls e = TypeError.
Proof.
  intros Hk Hbad. unfold _evict_expired. unfold mbind, M_bind at 1.
  destruct (expired_keys_poison c now (map_to_list (_timestamps c)) c k ts)
    as (e & -> & He); [by apply elem_of_map_to_list|done|]. by exists e.
Qed.

Lemma with_cache_id c : with_cache (λ d, d) c = c.
Proof. by destruct c. Qed.

End CacheExact.
(** ** The cache engine in use *)

(** X1.  Whatever sequence of [get], [set], [delete], [clear], [size] and
    [keys] calls an engine has served since [__init__], returning or
    raising, it holds one entry per key and a timestamp for every cached
    key, and its [max_size] and [default_ttl] are those it was built with.
    So [delete] finds the timestamp it removes: it never raises. *)
Theorem X1_reachable_well_formed (max_size default_ttl : Z) (c : TTLCache.t) :
  CacheRun.reachable max_size default_ttl c →
  CacheRun.well_formed c ∧
  TTLCache.max_size c = max_size ∧ TTLCache.default_ttl c = default_ttl ∧
  ∀ key, ∃ b c', TTLCache.delete key c = Ret b c'.
Proof.
  intros (Hwf & Hm & Hd)%CacheMore.reachable_invariant.
  split_and!; try done. intros key. apply CacheMore.delete_stamped, Hwf.
Qed.

Lemma X1_reachable_well_formed_witness :
  ∃ b c', TTLCache.delete "a" (TTLCache.mk 2 300 [("a", VInt 1)] {["a" := 7]}) = Ret b c'.
Proof.
  refine (proj2 (proj2 (proj2 (X1_reachable_well_formed 2 300 _ _))) "a").
  apply (CacheRun.reach_step 2 300 (TTLCache.__init__ 2 300)
           (CacheRun.Set_ "a" (VInt 1) None 7 7)); [constructor|].
  vm_compute. reflexivity.
Defined.

(** X2.  [set] of a key that is not cached, while nothing stored is expired:
    the call returns; the new entry goes to the recent end; the entries
    dropped are exactly the [n] oldest, [n] being what the cache held beyond
    [max_size - 1] (none below capacity, one at capacity), and they lose
    their timestamps; every other entry and timestamp is as before. *)
Theorem X2_set_new_key_evicts_oldest (c : TTLCache.t) (key : string) (val : value)
    (ttl : option Z) (t1 t2 : Z) :
  1 ≤ TTLCache.max_size c →
  dict_get key (TTLCache._cache c) = None →
  CacheRun.all_fresh t1 c →
  let n := (length (TTLCache._cache c) + 1 - Z.to_nat (TTLCache.max_size c))%nat in
  ∃ c', TTLCache.set key val ttl t1 t2 c = Ret () c' ∧
        TTLCache._cache c' =
          drop n (TTLCache._cache c) ++ [(key, TTLCache.cache_value val ttl)] ∧
        ∀ k, TTLCache._timestamps c' !! k =
             if decide (k = key) then Some t2
             else if decide (k ∈ dict_keys (take n (TTLCache._cache c))) then None
             else TTLCache._timestamps c !! k.
Proof.
  intros Hmax Hnew Hfresh n.
  destruct (CacheExact.set_exact key val ttl t1 t2 c Hmax) as (c' & Hset & Hc & _ & _ & Hts).
  { intros k ts _ Hk. by apply Hfresh. }
  rewrite dict_del_absent in Hc, Hts by done. by exists c'.
Qed.

Lemma X2_set_new_key_evicts_oldest_witness :
  ∃ c', TTLCache.set "c" (VInt 3) None 5 6
          (TTLCache.mk 2 300 [("a", VInt 1); ("b", VInt 2)] {["a" := 0; "b" := 1]})
        = Ret () c' ∧
        TTLCache._cache c' = [("b", VInt 2); ("c", VInt 3)] ∧
        TTLCache._timestamps c' !! "a" = None.
Proof.
  destruct (X2_set_new_key_evicts_oldest
              (TTLCache.mk 2 300 [("a", VInt 1); ("b", VInt 2)] {["a" := 0; "b" := 1]})
              "c" (VInt 3) None 5 6) as (c' & Hset & Hc & Hts).
  - simpl. lia.
  - reflexivity.
  - intros k ts Hk. simpl in Hk.
    apply lookup_insert_Some in Hk as [[<- <-]|[_ Hk]];
      [exists 300; split; [reflexivity|lia]|].
    apply lookup_singleton_Some in Hk as [<- <-].
    exists 300. split; [reflexivity|lia].
  - exists c'. split; [exact Hset|]. split; [exact Hc|]. by rewrite Hts.
Defined.

(** X3.  [set] of a key that is cached, in a cache within its capacity,
    while no other key is expired: nothing is evicted; the key moves to the
    recent end with the new value and the new stamp.  What was stored under
    the key does not matter: it may have been expired, or have carried a
    TTL that is no number. *)
Theorem X3_set_cached_key_moves_it (c : TTLCache.t) (key : string) (old val : value)
    (ttl : option Z) (t1 t2 : Z) :
  dict_get key (TTLCache._cache c) = Some old →
  Z.of_nat (length (TTLCache._cache c)) ≤ TTLCache.max_size c →
  (∀ k ts, k ≠ key → TTLCache._timestamps c !! k = Some ts →
           ∃ t, num_of (TTLCache.entry_ttl c k) = Some t ∧ t1 - ts ≤ t) →
  ∃ c', TTLCache.set key val ttl t1 t2 c = Ret () c' ∧
        TTLCache._cache c' =
          dict_del key (TTLCache._cache c) ++ [(key, TTLCache.cache_value val ttl)] ∧
        TTLCache._timestamps c' = <[key := t2]> (TTLCache._timestamps c).
Proof.
  intros Hold Hcap Hfresh.
  pose proof (CacheExact.dict_del_length_lt key (TTLCache._cache c)) as Hlt.
  rewrite Hold in Hlt. specialize (Hlt (ltac:(by eexists))).
  destruct (CacheExact.set_exact key val ttl t1 t2 c) as (c' & Hset & Hc & _ & _ & Hts);
    [lia|done|].
  replace (length (dict_del key (TTLCache._cache c)) + 1
           - Z.to_nat (TTLCache.max_size c))%nat with 0%nat in Hc, Hts by lia.
  exists c'. split; [done|]. split; [done|].
  apply map_eq. intros k. rewrite Hts.
  destruct (decide (k = key)) as [->|Hne].
  - by rewrite lookup_insert_eq.
  - rewrite lookup_insert_ne by done. rewrite decide_False; [done|].
    simpl. apply not_elem_of_nil.
Qed.

Lemma X3_set_cached_key_moves_it_witness :
  ∃ c', TTLCache.set "a" (VInt 9) None 50 51
          (TTLCache.mk 2 5 [("a", VDict [("ttl", VStr "soon")]); ("b", VInt 2)]
             {["a" := 0; "b" := 48]})
        = Ret () c' ∧
        TTLCache._cache c' = [("b", VInt 2); ("a", VInt 9)].
Proof.
  destruct (X3_set_cached_key_moves_it
              (TTLCache.mk 2 5 [("a", VDict [("ttl", VStr "soon")]); ("b", VInt 2)]
                 {["a" := 0; "b" := 48]})
              "a" (VDict [("ttl", VStr "soon")]) (VInt 9) None 50 51)
    as (c' & Hset & Hc & _).
  - reflexivity.
  - simpl. lia.
  - intros k ts Hne Hk. simpl in Hk.
    apply lookup_insert_Some in Hk as [[<- _]|[_ Hk]]; [done|].
    apply lookup_singleton_Some in Hk as [<- <-].
    exists 5. split; [reflexivity|lia].
  - exists c'. split; [exact Hset|exact Hc].
Defined.

(** X4.  [delete] on an engine in any state it can have reached: it
    returns whether the key was cached; afterwards the key is neither cached
    nor (if it was cached) stamped, a [get] of it misses, and every other
    key keeps its entry, its place in the order and its timestamp. *)
Theorem X4_delete_removes_only_the_key (max_size default_ttl : Z) (c : TTLCache.t)
    (key : string) :
  CacheRun.reachable max_size default_ttl c →
  ∃ c', TTLCache.delete key c = Ret (dict_mem key (TTLCache._cache c)) c' ∧
        TTLCache._cache c' = filter (λ kv, kv.1 ≠ key) (TTLCache._cache c) ∧
        (dict_mem key (TTLCache._cache c) = true → TTLCache._timestamps c' !! key = None) ∧
        (∀ k, k ≠ key → TTLCache._timestamps c' !! k = TTLCache._timestamps c !! k) ∧
        ∀ now, TTLCache.get key now c' = Ret VNone c'.
Proof.
  intros ((_ & Hst) & _)%CacheMore.reachable_invariant.
  unfold TTLCache.delete. destruct (dict_mem key (TTLCache._cache c)) eqn:Hmem.
  - apply dict_mem_true in Hmem. destruct (Hst key Hmem) as [ts Hts]. rewrite Hts.
    eexists. split; [done|]. simpl. split_and!.
    + apply CacheMore.dict_del_filter.
    + intros _. apply lookup_delete_eq.
    + intros k Hne. by apply lookup_delete_ne.
    + intros now. apply CacheFacts.get_absent. simpl. apply dict_get_del_eq.
  - apply dict_mem_false in Hmem. exists c. split_and!; try done.
    + rewrite <- CacheMore.dict_del_filter. by rewrite dict_del_absent.
    + intros now. by apply CacheFacts.get_absent.
Qed.

Lemma X4_delete_removes_only_the_key_witness :
  ∃ c', TTLCache.delete "a" (TTLCache.mk 2 300 [("a", VInt 1)] {["a" := 7]}) = Ret true c' ∧
        TTLCache._cache c' = [].
Proof.
  destruct (X4_delete_removes_only_the_key 2 300
              (TTLCache.mk 2 300 [("a", VInt 1)] {["a" := 7]}) "a")
    as (c' & Hdel & Hc & _).
  - apply (CacheRun.reach_step 2 300 (TTLCache.__init__ 2 300)
             (CacheRun.Set_ "a" (VInt 1) None 7 7)); [constructor|].
    vm_compute. reflexivity.
  - exists c'. split; [exact Hdel|exact Hc].
Defined.

(** X5.  [keys] returns the cached keys that are not expired at the time
    of the call, in the cache's order (oldest use first); [size] at that
    time returns their number and leaves the same state; asking again at the
    same time changes nothing; and [get] agrees: at that time it finds every
    listed key and misses every other. *)
Theorem X5_keys_are_the_unexpired (c : TTLCache.t) (now : Z) (ks : list string)
    (c' : TTLCache.t) :
  CacheRun.well_formed c →
  TTLCache.keys now c = Ret ks c' →
  (∀ k, k ∈ ks ↔
        k ∈ dict_keys (TTLCache._cache c) ∧
        ¬ ∃ ts t, TTLCache._timestamps c !! k = Some ts ∧
                  num_of (TTLCache.entry_ttl c k) = Some t ∧ t < now - ts) ∧
  ks `sublist_of` dict_keys (TTLCache._cache c) ∧
  TTLCache.size now c = Ret (Z.of_nat (length ks)) c' ∧
  TTLCache.keys now c' = Ret ks c' ∧
  (∀ k, k ∈ ks → ∃ v c'', dict_get k (TTLCache._cache c) = Some v ∧
                          TTLCache.get k now c' = Ret v c'') ∧
  (∀ k, k ∉ ks → TTLCache.get k now c' = Ret VNone c').
Proof.
  intros [Hnd Hst] Hkeys. unfold TTLCache.keys in Hkeys.
  unfold mbind, M_bind in Hkeys.
  destruct (TTLCache._evict_expired now c) as [[] c1| |] eqn:Hsweep; [|done..].
  munfold. injection Hkeys as <- <-.
  pose proof (CacheExact._evict_expired_ret_numeric _ _ _ Hsweep) as Hnum.
  destruct (CacheExact._evict_expired_filter _ _ _ Hsweep)
    as (dead & Hdead & Hc1 & Hts1 & _ & Hd1).
  assert (∀ k, dict_get k (TTLCache._cache c1) =
               if decide (k ∈ dead) then None else dict_get k (TTLCache._cache c)) as Hget1.
  { intros k. rewrite Hc1.
    pose proof (CacheExact.dict_get_filter_keys (λ k, k ∉ dead) k (TTLCache._cache c)) as Hf.
    simpl in Hf. rewrite Hf.
    by destruct (decide (k ∈ dead)); [rewrite decide_False by tauto|rewrite decide_True]. }
  assert (∀ k, k ∈ dict_keys (TTLCache._cache c1) ↔
               k ∈ dict_keys (TTLCache._cache c) ∧ k ∉ dead) as Hin1.
  { intros k. rewrite <- !CacheMore.dict_get_is_Some_keys, Hget1.
    destruct (decide (k ∈ dead)); split; try tauto; by intros [? ?]. }
  assert (TTLCache._evict_expired now c1 = Ret () c1) as Hagain.
  { apply CacheFacts._evict_expired_noop. intros k ts Hk. rewrite Hts1 in Hk.
    destruct (decide (k ∈ dead)) as [|Hlive]; [done|].
    destruct (Hnum k ts Hk) as [t Ht]. exists t.
    rewrite (CacheExact.entry_ttl_ext c c1 k); [|by rewrite Hget1, decide_False|done].
    split; [done|]. destruct (Z.le_gt_cases (now - ts) t) as [|Hlt]; [done|].
    exfalso. apply Hlive, Hdead. exists ts, t. split_and!; [done..|lia]. }
  split_and!.
  - intros k. rewrite Hin1, Hdead. done.
  - unfold dict_keys. rewrite Hc1. apply fmap_sublist, sublist_filter.
  - unfold TTLCache.size. unfold mbind, M_bind. rewrite Hsweep. munfold.
    unfold dict_keys. by rewrite length_fmap.
  - unfold TTLCache.keys. unfold mbind, M_bind. by rewrite Hagain.
  - intros k [Hk Hlive]%Hin1.
    apply CacheMore.dict_get_is_Some_keys in Hk as Hv. destruct Hv as [v Hv].
    destruct (Hst k) as [ts Hts]; [by eexists|].
    destruct (Hnum k ts Hts) as [t Ht].
    exists v. eexists. split; [done|].
    apply (CacheFacts.get_hit k now c1 v ts t).
    + by rewrite Hget1, decide_False.
    + by rewrite Hts1, decide_False.
    + rewrite (CacheExact.entry_ttl_ext c c1 k); [done|by rewrite Hget1, decide_False|done].
    + destruct (Z.le_gt_cases (now - ts) t) as [|Hlt]; [done|].
      exfalso. apply Hlive, Hdead. exists ts, t. split_and!; [done..|lia].
  - intros k Hk. apply CacheFacts.get_absent. by apply CacheFacts.dict_get_None_keys.
Qed.

Lemma X5_keys_are_the_unexpired_witness :
  ∃ c', TTLCache.keys 10
          (TTLCache.mk 3 5 [("a", VInt 1); ("b", VInt 2)] {["a" := 0; "b" := 8]})
        = Ret ["b"] c' ∧
        TTLCache.size 10
          (TTLCache.mk 3 5 [("a", VInt 1); ("b", VInt 2)] {["a" := 0; "b" := 8]})
        = Ret 1 c'.
Proof.
  eexists. split; [vm_compute; reflexivity|].
  refine (proj1 (proj2 (proj2 (X5_keys_are_the_unexpired
            (TTLCache.mk 3 5 [("a", VInt 1); ("b", VInt 2)] {["a" := 0; "b" := 8]})
            10 ["b"] _ _ _)))).
  - split.
    + by compute_done.
    + intros k [v Hv]. simpl in *.
      destruct (String.eqb_spec k "a") as [->|_]; [by eexists|].
      destruct (String.eqb_spec k "b") as [->|_]; [by eexists|done].
  - vm_compute. reflexivity.
Defined.

(** X6.  A [get] that returns changes nothing but the order of the
    entries: the timestamps, every key's entry and every key's TTL are as
    before, so a hit does not prolong the entry's life.  On a hit the
    entry found is the one stored and it moves to the recent end; a [get]
    that raises leaves the engine untouched. *)
Theorem X6_get_only_reorders (c : TTLCache.t) (key : string) (now : Z) :
  CacheRun.well_formed c →
  (∀ v c', TTLCache.get key now c = Ret v c' →
     TTLCache._timestamps c' = TTLCache._timestamps c ∧
     TTLCache._cache c' ≡ₚ TTLCache._cache c ∧
     (∀ k, dict_get k (TTLCache._cache c') = dict_get k (TTLCache._cache c) ∧
           TTLCache.entry_ttl c' k = TTLCache.entry_ttl c k) ∧
     (c' = c ∨
      dict_get key (TTLCache._cache c) = Some v ∧
      TTLCache._cache c' = dict_del key (TTLCache._cache c) ++ [(key, v)])) ∧
  (∀ e c', TTLCache.get key now c = Raise e c' → c' = c) ∧
  TTLCache.get key now c ≠ Diverge.
Proof.
  intros [Hnd _]. split_and!.
  - intros v c' [[-> ->]|(Hv & -> & _)]%CacheExact.get_ret.
    { split_and!; try done. by left. }
    simpl.
    assert (dict_set key v (dict_del key (TTLCache._cache c)) =
            dict_del key (TTLCache._cache c) ++ [(key, v)]) as Hmove.
    { apply dict_set_absent, dict_get_del_eq. }
    assert (∀ k, dict_get k (dict_set key v (dict_del key (TTLCache._cache c))) =
                 dict_get k (TTLCache._cache c)) as Hsame.
    { intros k. destruct (decide (k = key)) as [->|Hne].
      - by rewrite dict_get_set_eq.
      - by rewrite dict_get_set_ne, dict_get_del_ne. }
    split_and!; try done.
    + rewrite Hmove. etransitivity; [apply Permutation_app_comm|]. simpl.
      symmetry. by apply CacheExact.dict_del_perm.
    + intros k. split; [apply Hsame|]. by apply CacheExact.entry_ttl_ext.
    + right. by rewrite <- Hmove.
  - intros e c' Hraise. by apply CacheExact.get_raise in Hraise as [-> _].
  - unfold TTLCache.get. destruct (negb _); [done|].
    unfold mbind, M_bind at 1. unfold TTLCache._is_expired.
    destruct (TTLCache._timestamps c !! key); [|done].
    unfold py_gt. destruct (num_of _); munfold; [|done].
    by destruct (_ <? _).
Qed.

Lemma X6_get_only_reorders_witness :
  ∃ c', TTLCache.get "a" 3
          (TTLCache.mk 3 5 [("a", VInt 1); ("b", VInt 2)] {["a" := 0; "b" := 1]})
        = Ret (VInt 1) c' ∧
        TTLCache._cache c' = [("b", VInt 2); ("a", VInt 1)] ∧
        TTLCache._timestamps c' = {["a" := 0; "b" := 1]}.
Proof.
  eexists. split; [vm_compute; reflexivity|]. split; [reflexivity|].
  refine (proj1 (proj1 (X6_get_only_reorders
            (TTLCache.mk 3 5 [("a", VInt 1); ("b", VInt 2)] {["a" := 0; "b" := 1]})
            "a" 3 _) (VInt 1) _ _)).
  - split.
    + by compute_done.
    + intros k [w Hw]. simpl in *.
      destruct (String.eqb_spec k "a") as [->|_]; [by eexists|].
      destruct (String.eqb_spec k "b") as [->|_]; [by eexists|done].
  - vm_compute. reflexivity.
Defined.

(** X7.  [set(key, v)] without a TTL, where [v] is a dict whose ['ttl']
    entry is no number, is accepted; from then on the engine compares a
    number with that entry wherever it checks expiry, so [get] of the key,
    [size], [keys] and [set] of any other key raise [TypeError].  Such a
    [set] has already dropped the entry it was to replace.  [delete] of the
    key still works. *)
Theorem X7_non_numeric_ttl_poisons (c c' : TTLCache.t) (key : string)
    (d : list (string * value)) (bad : value) (t1 t2 : Z) :
  dict_get "ttl" d = Some bad → num_of bad = None →
  TTLCache.set key (VDict d) None t1 t2 c = Ret () c' →
  (∀ now, ∃ e, TTLCache.get key now c' = Raise e c' ∧ exn_cls e = TypeError) ∧
  (∀ now, ∃ e, TTLCache.size now c' = Raise e c' ∧ exn_cls e = TypeError) ∧
  (∀ now, ∃ e, TTLCache.keys now c' = Raise e c' ∧ exn_cls e = TypeError) ∧
  (∀ key' val ttl t1' t2', key' ≠ key →
     ∃ e, TTLCache.set key' val ttl t1' t2' c'
          = Raise e (TTLCache.with_cache (dict_del key') c') ∧
          exn_cls e = TypeError) ∧
  ∃ c'', TTLCache.delete key c' = Ret true c'' ∧
         dict_get key (TTLCache._cache c'') = None.
Proof.
  intros Hd Hbad [Hv Hts]%CacheFacts.set_stored. simpl in Hv.
  assert (TTLCache.entry_ttl c' key = bad) as Httl.
  { unfold TTLCache.entry_ttl. by rewrite Hv, Hd. }
  assert (num_of (TTLCache.entry_ttl c' key) = None) as Hnone by by rewrite Httl.
  split_and!.
  - intros now. unfold TTLCache.get, dict_mem. rewrite Hv. simpl.
    unfold mbind, M_bind at 1. unfold TTLCache._is_expired. rewrite Hts.
    unfold py_gt. rewrite Hnone. munfold. by eexists.
  - intros now. destruct (CacheExact._evict_expired_poison now c' key t2 Hts Hnone)
      as (e & He & Hcls).
    exists e. unfold TTLCache.size. unfold mbind, M_bind. by rewrite He.
  - intros now. destruct (CacheExact._evict_expired_poison now c' key t2 Hts Hnone)
      as (e & He & Hcls).
    exists e. unfold TTLCache.keys. unfold mbind, M_bind. by rewrite He.
  - intros key' val ttl t1' t2' Hne. rewrite CacheFacts.set_unfold.
    assert ((if dict_mem key' (TTLCache._cache c')
             then TTLCache.with_cache (dict_del key') c' else c')
            = TTLCache.with_cache (dict_del key') c') as Hc1.
    { destruct (dict_mem key' (TTLCache._cache c')) eqn:Hmem; [done|].
      apply dict_mem_false in Hmem. destruct c' as [m dt cache ts]. simpl in *.
      unfold TTLCache.with_cache. simpl. by rewrite dict_del_absent. }
    destruct (CacheExact._evict_expired_poison t1'
                (TTLCache.with_cache (dict_del key') c') key t2) as (e & He & Hcls).
    + done.
    + rewrite <- Hc1. rewrite CacheFacts.entry_ttl_drop_key by done. done.
    + exists e. by rewrite Hc1, He.
  - unfold TTLCache.delete, dict_mem. rewrite Hv, Hts. eexists. split; [done|].
    simpl. apply dict_get_del_eq.
Qed.

Lemma X7_non_numeric_ttl_poisons_witness :
  ∃ c' e, TTLCache.set "k" (VDict [("ttl", VStr "1h")]) None 0 0 (TTLCache.__init__ 10 300)
          = Ret () c' ∧
          TTLCache.size 1 c' = Raise e c' ∧ exn_cls e = TypeError.
Proof.
  pose (c' := TTLCache.mk 10 300 [("k", VDict [("ttl", VStr "1h")])] {["k" := 0]}).
  assert (TTLCache.set "k" (VDict [("ttl", VStr "1h")]) None 0 0 (TTLCache.__init__ 10 300)
          = Ret () c') as Hset by (vm_compute; reflexivity).
  destruct (proj1 (proj2 (X7_non_numeric_ttl_poisons (TTLCache.__init__ 10 300) c' "k"
              [("ttl", VStr "1h")] (VStr "1h") 0 0 eq_refl eq_refl Hset)) 1)
    as (e & He & Hcls).
  by exists c', e.
Defined.

(** X8.  On an engine whose [max_size] is zero or negative no [set] ever
    returns: the eviction loop's condition [len(_cache) >= max_size] stays
    true on the empty cache.  If the stored TTLs are numbers, so that the
    sweep before the loop does not raise, the call runs forever. *)
Theorem X8_nonpositive_capacity_never_stores (c : TTLCache.t) (key : string)
    (val : value) (ttl : option Z) (t1 t2 : Z) :
  TTLCache.max_size c ≤ 0 →
  (∀ c', TTLCache.set key val ttl t1 t2 c ≠ Ret () c') ∧
  (TTLCache.numeric c → TTLCache.set key val ttl t1 t2 c = Diverge).
Proof.
  intros Hmax. split; [intros c'; by apply CacheFacts.set_nonpositive|].
  intros Hnum. rewrite CacheFacts.set_unfold.
  destruct (CacheFacts.drop_key_params key c) as (Hm1 & _ & Hsub & _).
  destruct (CacheFacts._evict_expired_total t1
              (if dict_mem key (TTLCache._cache c)
               then TTLCache.with_cache (dict_del key) c else c)) as [c2 H2].
  { intros k ts _. apply CacheFacts.numeric_entry_ttl.
    by eapply CacheFacts.numeric_subseteq. }
  rewrite H2. apply CacheFacts._evict_expired_ret in H2 as (ks & -> & _).
  rewrite CacheFacts.evict_while_diverge; [done|].
  by rewrite (proj1 (CacheFacts.foldl_pop_key_params _ ks)), Hm1.
Qed.

Lemma X8_nonpositive_capacity_never_stores_witness :
  TTLCache.set "a" (VInt 1) None 0 0 (TTLCache.__init__ 0 300) = Diverge.
Proof.
  apply (X8_nonpositive_capacity_never_stores (TTLCache.__init__ 0 300) "a" (VInt 1) None 0 0).
  - simpl. lia.
  - by apply Forall_nil.
Defined.

(** X9.  What [get] gives back after a [set] of the same key that
    returned, with nothing in between.  With a TTL [t] it is the wrapper
    [{"value": v, "ttl": t}] up to [t] after the stamp and [None] later;
    without one, for a value that is no dict with a ['ttl'] entry, it is the
    value itself up to [default_ttl] after the stamp and [None] later. *)
Theorem X9_set_then_get (c c' : TTLCache.t) (key : string) (val : value)
    (ttl : option Z) (t1 t2 now : Z) :
  TTLCache.set key val ttl t1 t2 c = Ret () c' →
  (∀ t, ttl = Some t →
     ∃ c'', TTLCache.get key now c' =
            Ret (if t <? now - t2 then VNone
                 else VDict [("value", val); ("ttl", VInt t)]) c'') ∧
  (ttl = None → (∀ d, val = VDict d → dict_get "ttl" d = None) →
     ∃ c'', TTLCache.get key now c' =
            Ret (if TTLCache.default_ttl c <? now - t2 then VNone else val) c'').
Proof.
  intros Hset. split.
  - intros t ->.
    apply (CacheFacts.get_after_set key val (Some t) t1 t2 c c' t now Hset).
    by rewrite (CacheFacts.entry_ttl_after_set _ _ _ _ _ _ _ Hset).
  - intros -> Hplain.
    apply (CacheFacts.get_after_set key val None t1 t2 c c' (TTLCache.default_ttl c) now Hset).
    destruct (CacheFacts.set_ret _ _ _ _ _ _ _ Hset) as (_ & _ & Hd).
    apply CacheFacts.set_stored in Hset as [Hv _]. simpl in Hv.
    unfold TTLCache.entry_ttl. rewrite Hv, Hd.
    destruct val as [| | | | |d]; try done. by rewrite (Hplain d eq_refl).
Qed.

Lemma X9_set_then_get_witness :
  ∃ c' c'', TTLCache.set "k" (VStr "rows") None 0 10 (TTLCache.__init__ 10 300) = Ret () c' ∧
            TTLCache.get "k" 310 c' = Ret (VStr "rows") c'' ∧
            TTLCache.get "k" 311 c' = Ret VNone c'.
Proof.
  destruct (CacheFacts.set_total "k" (VStr "rows") None 0 10 (TTLCache.__init__ 10 300))
    as (c' & Hset & _); [simpl; lia|by apply Forall_nil|exact I|].
  destruct (proj2 (X9_set_then_get (TTLCache.__init__ 10 300) c' "k" (VStr "rows") None
                     0 10 310 Hset) eq_refl) as (c'' & Hget); [done|].
  exists c', c''. split; [exact Hset|]. split; [exact Hget|].
  vm_compute in Hset. injection Hset as <-. vm_compute. reflexivity.
Defined.
(** ** The cache manager *)

Module ManagerFacts.
Import CacheManager.

Lemma _get_cache_known {S} (which : tier) (s : S) :
  _get_cache (tier_name which) s = Ret which s.
Proof. by destruct which. Qed.

Lemma _get_cache_cases {S} cache_type (s : S) :
  (∃ which, cache_type = tier_name which ∧ _get_cache cache_type s = Ret which s) ∨
  (cache_type ≠ "query" ∧ cache_type ≠ "schema" ∧ cache_type ≠ "metadata" ∧
   _get_cache cache_type s = Raise (Exn ValueError ("Unknown cache type: " +:+ cache_type)) s).
Proof.
  unfold _get_cache.
  destruct (String.eqb_spec cache_type "query") as [->|H1]; [left; by exists QueryTier|].
  destruct (String.eqb_spec cache_type "schema") as [->|H2]; [left; by exists SchemaTier|].
  destruct (String.eqb_spec cache_type "metadata") as [->|H3];
    [left; by exists MetadataTier|].
  by right.
Qed.

Lemma _get_cache_unknown {S} cache_type (s : S) :
  cache_type ≠ "query" → cache_type ≠ "schema" → cache_type ≠ "metadata" →
  _get_cache cache_type s = Raise (Exn ValueError ("Unknown cache type: " +:+ cache_type)) s.
Proof.
  intros H1 H2 H3.
  destruct (_get_cache_cases cache_type s) as [(which & -> & _)|(_ & _ & _ & ->)]; [|done].
  by destruct which.
Qed.

Lemma engine_with_engine which which' c m :
  engine which' (with_engine which c m) = if decide (which' = which) then c else engine which' m.
Proof. by destruct which, which'. Qed.

Lemma stats_with_engine which c m : stats (with_engine which c m) = stats m.
Proof. by destruct which. Qed.

End ManagerFacts.

(** X10.  A cache type other than "query", "schema" and "metadata" makes
    [get], [set], [delete] and [clear] of the manager raise
    [ValueError("Unknown cache type: ...")] and leaves the manager as it
    was.  The empty string is the exception for [clear]: like [None] it
    empties all three caches; the statistics stay. *)
Theorem X10_unknown_cache_type (m : CacheManager.t) (cache_type key : string)
    (val : value) (ttl : option Z) (now t1 t2 : Z) :
  cache_type ≠ "query" → cache_type ≠ "schema" → cache_type ≠ "metadata" →
  let e := Exn ValueError ("Unknown cache type: " +:+ cache_type) in
  CacheManager.get key cache_type now m = Raise e m ∧
  CacheManager.set key val ttl cache_type t1 t2 m = Raise e m ∧
  CacheManager.delete key cache_type m = Raise e m ∧
  (cache_type ≠ "" → CacheManager.clear (Some cache_type) m = Raise e m) ∧
  ∃ m', CacheManager.clear (Some "") m = Ret () m' ∧
        CacheManager.clear None m = Ret () m' ∧
        (∀ which, TTLCache._cache (CacheManager.engine which m') = [] ∧
                  TTLCache._timestamps (CacheManager.engine which m') = ∅) ∧
        CacheManager.stats m' = CacheManager.stats m.
Proof.
  intros H1 H2 H3 e.
  pose proof (ManagerFacts._get_cache_unknown cache_type m H1 H2 H3) as Hraise.
  split_and!.
  - unfold CacheManager.get. unfold mbind, M_bind at 1. by rewrite Hraise.
  - unfold CacheManager.set. unfold mbind, M_bind at 1. by rewrite Hraise.
  - unfold CacheManager.delete. unfold mbind, M_bind at 1. by rewrite Hraise.
  - intros Hne. unfold CacheManager.clear.
    destruct (String.eqb_spec cache_type "") as [|_]; [done|]. simpl.
    unfold mbind, M_bind at 1. by rewrite Hraise.
  - eexists. split; [reflexivity|]. split; [reflexivity|].
    split; [by intros []|done].
Qed.

Lemma X10_unknown_cache_type_witness :
  CacheManager.get "k" "queries" 0 CacheManager.__init__
  = Raise (Exn ValueError "Unknown cache type: queries") CacheManager.__init__.
Proof.
  by apply (X10_unknown_cache_type CacheManager.__init__ "queries" "k" VNone None 0 0 0).
Defined.

(** X11.  A [get] of the manager that returns is a [get] of the engine of
    the named cache and counts once: it adds one to ["<type>_hits"] when
    the value is not [None], else to ["<type>_misses"] (so a stored [None]
    counts as a miss), and touches no other counter and no other cache.
    [set], [delete] and [clear] never change the statistics. *)
Theorem X11_get_counts_once (m m' : CacheManager.t) (key cache_type : string)
    (now : Z) (v : value) :
  CacheManager.get key cache_type now m = Ret v m' →
  ∃ which,
    cache_type = tier_name which ∧
    TTLCache.get key now (CacheManager.engine which m)
      = Ret v (CacheManager.engine which m') ∧
    (∀ other, other ≠ which →
              CacheManager.engine other m' = CacheManager.engine other m) ∧
    (∀ counter,
       CacheManager.stats m' !! counter =
       if decide (counter = cache_type +:+
                              match v with VNone => "_misses" | _ => "_hits" end)
       then (λ n, n + 1) <$> CacheManager.stats m !! counter
       else CacheManager.stats m !! counter) ∧
    (∀ key' val ttl t1 t2 cache_type' m'',
       final (CacheManager.set key' val ttl cache_type' t1 t2 m) = Some m'' →
       CacheManager.stats m'' = CacheManager.stats m) ∧
    (∀ key' cache_type' m'',
       final (CacheManager.delete key' cache_type' m) = Some m'' →
       CacheManager.stats m'' = CacheManager.stats m) ∧
    (∀ cache_type' m'',
       final (CacheManager.clear cache_type' m) = Some m'' →
       CacheManager.stats m'' = CacheManager.stats m).
Proof.
  intros Hget. unfold CacheManager.get in Hget. unfold mbind, M_bind at 1 in Hget.
  destruct (ManagerFacts._get_cache_cases cache_type m)
    as [(which & -> & Hwhich)|(_ & _ & _ & Hraise)]; [|by rewrite Hraise in Hget].
  rewrite Hwhich in Hget. unfold mbind, M_bind at 1 in Hget. unfold zoom in Hget.
  destruct (TTLCache.get key now (CacheManager.engine which m)) as [v0 c0| |] eqn:Hengine;
    [|done..].
  munfold. injection Hget as <- <-.
  exists which. split_and!.
  - done.
  - unfold CacheManager.bump. by destruct which.
  - intros other Hne. unfold CacheManager.bump. by destruct which, other.
  - intros counter. unfold CacheManager.bump. simpl.
    rewrite ManagerFacts.stats_with_engine.
    replace (match v0 with
             | VNone => tier_name which +:+ "_misses"
             | _ => tier_name which +:+ "_hits"
             end)
      with (tier_name which +:+ match v0 with VNone => "_misses" | _ => "_hits" end)
      by (by destruct v0).
    destruct (decide (counter = _)) as [->|Hne].
    + by rewrite lookup_alter_eq.
    + by rewrite lookup_alter_ne.
  - intros key' val ttl t1 t2 cache_type' m''. unfold CacheManager.set.
    unfold mbind, M_bind at 1.
    destruct (ManagerFacts._get_cache_cases cache_type' m)
      as [(w & -> & ->)|(_ & _ & _ & ->)]; [|by intros [= <-]].
    unfold zoom. destruct (TTLCache.set _ _ _ _ _ _); simpl; [| |done];
      intros [= <-]; apply ManagerFacts.stats_with_engine.
  - intros key' cache_type' m''. unfold CacheManager.delete.
    unfold mbind, M_bind at 1.
    destruct (ManagerFacts._get_cache_cases cache_type' m)
      as [(w & -> & ->)|(_ & _ & _ & ->)]; [|by intros [= <-]].
    unfold zoom. destruct (TTLCache.delete _ _); simpl; [| |done];
      intros [= <-]; apply ManagerFacts.stats_with_engine.
  - intros cache_type' m''. unfold CacheManager.clear.
    destruct (match cache_type' with Some s => negb (s =? "")%string | None => false end).
    + unfold mbind, M_bind at 1.
      destruct (ManagerFacts._get_cache_cases (default "" cache_type') m)
        as [(w & -> & ->)|(_ & _ & _ & ->)]; [|by intros [= <-]].
      unfold zoom. simpl. intros [= <-]. apply ManagerFacts.stats_with_engine.
    + simpl. by intros [= <-].
Qed.

Lemma X11_get_counts_once_witness :
  ∃ m', CacheManager.get "k" "schema" 0 CacheManager.__init__ = Ret VNone m' ∧
        CacheManager.stats m' !! "schema_misses" = Some 1 ∧
        CacheManager.stats m' !! "query_misses" = Some 0.
Proof.
  assert (∃ m', CacheManager.get "k" "schema" 0 CacheManager.__init__ = Ret VNone m')
    as [m' Hget] by (eexists; vm_compute; reflexivity).
  exists m'. split; [exact Hget|].
  destruct (X11_get_counts_once CacheManager.__init__ m' "k" "schema" 0 VNone Hget)
    as (which & _ & _ & _ & Hstats & _).
  rewrite (Hstats "schema_misses"), (Hstats "query_misses"). split; reflexivity.
Defined.
(** ** The schema store in use *)

Module SchemaMore.
Import SchemaManager SchemaFacts.

Lemma metadata_paths_inj n m :
  _get_metadata_file_path "resources" n = _get_metadata_file_path "resources" m → n = m.
Proof.
  intros Heq%path_join_resources_inj. by apply append_inj_r in Heq.
Qed.

(** The answer of [get_schema] is read off the two files of the source:
    the sidecar decides, the payload is what is returned. *)
Lemma get_schema_by_files fromisoformat dir name now (fs : gmap string value) :
  ∃ v, get_schema fromisoformat dir name now fs = Ret v fs ∧
       (v = VNone ∨ fs !! _get_schema_file_path dir name = Some v) ∧
       (fs !! _get_schema_file_path dir name = None ∨
        fs !! _get_metadata_file_path dir name = None → v = VNone) ∧
       ∀ fs2 : gmap string value,
         fs2 !! _get_metadata_file_path dir name = fs !! _get_metadata_file_path dir name →
         (fs2 !! _get_schema_file_path dir name = fs !! _get_schema_file_path dir name →
          get_schema fromisoformat dir name now fs2 = Ret v fs2) ∧
         (∀ s2, v ≠ VNone → fs2 !! _get_schema_file_path dir name = Some s2 →
                get_schema fromisoformat dir name now fs2 = Ret s2 fs2).
Proof.
  unfold get_schema.
  destruct (fs !! _get_schema_file_path dir name) as [s|] eqn:Hs;
    destruct (fs !! _get_metadata_file_path dir name) as [md|] eqn:Hm.
  2-4: exists VNone; split_and!; try done; try (by left);
       intros fs2 Hm2; split; [intros Hs2; by rewrite Hs2, ?Hm2|done].
  assert (∃ b : bool, ∀ (S : Type) (schema : value) (st : S),
            try_except
              (g ← py_get md "generated_at" (VStr "");
               generated_at ← py_fromisoformat fromisoformat g;
               ttl ← py_get md "ttl_seconds" (VInt 3600);
               ttl_seconds ← timedelta_seconds ttl;
               if ttl_seconds <? now - generated_at then mret VNone else mret schema)
              (λ _, mret VNone) st
            = Ret (if b then schema else VNone) st) as [b Hb].
  { munfold. unfold py_get, py_fromisoformat, timedelta_seconds. munfold.
    destruct md as [| | | | |d]; try (by exists false).
    destruct (default (VStr "") (dict_get "generated_at" d)) as [| | |g| |];
      try (by exists false).
    destruct (fromisoformat g) as [t|]; [|by exists false].
    destruct (num_of (default (VInt 3600) (dict_get "ttl_seconds" d))) as [n|];
      [|by exists false].
    destruct (fits_timedelta n); [|by exists false].
    destruct (n <? now - t); [by exists false|by exists true]. }
  exists (if b then s else VNone). split_and!.
  - apply Hb.
  - destruct b; [by right|by left].
  - by intros [|].
  - intros fs2 Hm2. rewrite Hm2. split.
    + intros ->. apply Hb.
    + intros s2 Hv ->. rewrite Hb. destruct b; done.
Qed.



End SchemaMore.

(** X12.  [get_schema] of the store never raises and never writes: it
    returns [None] or the payload file's content as it is, and [None]
    whenever the payload or the sidecar is missing, whatever the sidecar
    holds; [is_schema_stale] says whether it returned [None]. *)
Theorem X12_get_schema_reads_only (fromisoformat : string → option Z)
    (dir name : string) (now : Z) (fs : gmap string value) :
  ∃ v, SchemaManager.get_schema fromisoformat dir name now fs = Ret v fs ∧
       (v = VNone ∨ fs !! SchemaManager._get_schema_file_path dir name = Some v) ∧
       (fs !! SchemaManager._get_schema_file_path dir name = None ∨
        fs !! SchemaManager._get_metadata_file_path dir name = None → v = VNone) ∧
       SchemaManager.is_schema_stale fromisoformat dir name now fs
       = Ret (match v with VNone => true | _ => false end) fs.
Proof.
  destruct (SchemaMore.get_schema_by_files fromisoformat dir name now fs)
    as (v & Hget & Hv & Hmiss & _).
  exists v. split_and!; try done.
  unfold SchemaManager.is_schema_stale. unfold mbind, M_bind. by rewrite Hget.
Qed.

(** X13.  After [invalidate_schema] of a source, [get_schema] of that
    source returns [None] at any time; and under the directory "resources",
    for source names without a slash, every other source is served as
    before. *)
Theorem X13_invalidate_then_get (fromisoformat : string → option Z) (name : string)
    (fs : gmap string value) :
  SchemaManager.plain_name name = true →
  ∃ fs', SchemaManager.invalidate_schema "resources" name fs = Ret () fs' ∧
         (∀ now, SchemaManager.get_schema fromisoformat "resources" name now fs'
                 = Ret VNone fs') ∧
         ∀ other now, SchemaManager.plain_name other = true → other ≠ name →
           ∃ v, SchemaManager.get_schema fromisoformat "resources" other now fs = Ret v fs ∧
                SchemaManager.get_schema fromisoformat "resources" other now fs' = Ret v fs'.
Proof.
  intros _. eexists. split; [reflexivity|].
  assert (∀ path, path ≠ SchemaManager._get_schema_file_path "resources" name →
                  path ≠ SchemaManager._get_metadata_file_path "resources" name →
                  base.delete (SchemaManager._get_metadata_file_path "resources" name)
                    (base.delete (SchemaManager._get_schema_file_path "resources" name) fs)
                  !! path = fs !! path) as Hframe.
  { intros path H1 H2. by rewrite !lookup_delete_ne. }
  split_and!.
  - intros now.
    destruct (SchemaMore.get_schema_by_files fromisoformat "resources" name now
                (base.delete (SchemaManager._get_metadata_file_path "resources" name)
                   (base.delete (SchemaManager._get_schema_file_path "resources" name) fs)))
      as (v & Hget & _ & Hmiss & _).
    rewrite Hget. rewrite Hmiss; [done|]. right. apply lookup_delete_eq.
  - intros other now _ Hne.
    destruct (SchemaMore.get_schema_by_files fromisoformat "resources" other now fs)
      as (v & Hget & _ & _ & Hext).
    exists v. split; [done|].
    refine (proj1 (Hext _ _) _); apply Hframe.
    + intros Heq. symmetry in Heq. by apply SchemaFacts.schema_metadata_paths_differ in Heq.
    + intros Heq%SchemaMore.metadata_paths_inj. done.
    + intros Heq%SchemaFacts.schema_paths_inj. done.
    + apply SchemaFacts.schema_metadata_paths_differ.
Qed.

Lemma X13_invalidate_then_get_witness :
  ∃ fs', SchemaManager.invalidate_schema "resources" "a"
           (<["resources/a_schema.json" := VDict []]> ∅) = Ret () fs' ∧
         SchemaManager.get_schema epoch_fromisoformat "resources" "a" 0 fs' = Ret VNone fs'.
Proof.
  destruct (X13_invalidate_then_get epoch_fromisoformat "a"
              (<["resources/a_schema.json" := VDict []]> ∅) eq_refl)
    as (fs' & Hinv & Hget & _).
  exists fs'. split; [exact Hinv|exact (Hget 0)].
Defined.



(** X15.  Under the directory "resources", for source names without a
    slash, a [save_schema] for one source, finished or failed, does not
    change what [get_schema] answers for any other source. *)
Theorem X15_save_leaves_other_sources (isoformat : Z → string)
    (fromisoformat : string → option Z) (dumps : option nat → value → string)
    (name other : string) (schema : value) (utcnow now : Z)
    (fs fs' : gmap string value) :
  SchemaManager.plain_name name = true → SchemaManager.plain_name other = true →
  other ≠ name →
  final (SchemaManager.save_schema isoformat dumps "resources" name schema utcnow fs)
  = Some fs' →
  ∃ v, SchemaManager.get_schema fromisoformat "resources" other now fs = Ret v fs ∧
       SchemaManager.get_schema fromisoformat "resources" other now fs' = Ret v fs'.
Proof.
  intros _ _ Hne [_ Hframe]%SchemaFacts.save_schema_files.
  destruct (SchemaMore.get_schema_by_files fromisoformat "resources" other now fs)
    as (v & Hget & _ & _ & Hext).
  exists v. split; [done|].
  refine (proj1 (Hext _ _) _); apply Hframe.
  - intros Heq. symmetry in Heq. by apply SchemaFacts.schema_metadata_paths_differ in Heq.
  - intros Heq%SchemaMore.metadata_paths_inj. done.
  - intros Heq%SchemaFacts.schema_paths_inj. done.
  - apply SchemaFacts.schema_metadata_paths_differ.
Qed.

Lemma X15_save_leaves_other_sources_witness :
  ∃ v, SchemaManager.get_schema epoch_fromisoformat "resources" "b" 5 ∅ = Ret v ∅ ∧
       SchemaManager.get_schema epoch_fromisoformat "resources" "b" 5
         (<["resources/a_schema.json" := VList []]> ∅)
       = Ret v (<["resources/a_schema.json" := VList []]> ∅).
Proof.
  apply (X15_save_leaves_other_sources epoch_isoformat epoch_fromisoformat json_dumps
           "a" "b" (VList []) 0 5 ∅); [reflexivity|reflexivity|done|].
  vm_compute. reflexivity.
Defined.
(** ** The validators, completely *)

(** X16.  The REST validator answers [False] whenever the request has no
    ['endpoint'] entry or an empty one, if its ['method'], when given, is a
    string.  The request the query tool of the server builds has the
    entries ['query'] and ['limit'] only: the REST validator rejects it,
    whatever the query and the limit. *)
Theorem X16_rest_rejects_requests_without_endpoint (S : Type) (s : S)
    (max_query_limit : Z) :
  (∀ p m,
     default (VStr "") (dict_get "endpoint" p) = VStr "" →
     default (VStr "GET") (dict_get "method" p) = VStr m →
     RestAPIDataSource.validate_query max_query_limit p s = Ret false s) ∧
  (∀ query_text limit,
     RestAPIDataSource.validate_query max_query_limit
       [("query", VStr query_text); ("limit", VInt limit)] s = Ret false s).
Proof.
  split.
  - intros p m He Hm. unfold RestAPIDataSource.validate_query. by rewrite He, Hm.
  - done.
Qed.

Lemma X16_rest_rejects_requests_without_endpoint_witness :
  RestAPIDataSource.validate_query 1000
    [("endpoint", VStr ""); ("method", VStr "get"); ("limit", VInt 1)] () = Ret false ().
Proof.
  apply (proj1 (X16_rest_rejects_requests_without_endpoint unit () 1000)
           [("endpoint", VStr ""); ("method", VStr "get"); ("limit", VInt 1)] "get");
    reflexivity.
Defined.

(** X17.  For a request whose ['query'] is a string of ASCII text (or
    absent) and whose ['limit'] is a number (or absent, which means 100),
    the SQL validator returns, and it accepts exactly when the statement,
    trimmed and upper-cased, begins with SELECT, no deny-listed keyword
    occurs in the statement in any mix of cases, and the limit is at most
    [max_query_limit]. *)
Theorem X17_sql_validator_accepts_exactly (S : Type) (s : S) (max_query_limit : Z)
    (p : list (string * value)) (q : string) (n : Z) :
  default (VStr "") (dict_get "query" p) = VStr q →
  ascii_text q = true →
  num_of (default (VInt 100) (dict_get "limit" p)) = Some n →
  ∃ b, MySQLDataSource.validate_query max_query_limit p s = Ret b s ∧
       (b = true ↔
        (∃ rest, upper (strip q) = "SELECT" +:+ rest) ∧
        (∀ kw, kw ∈ MySQLDataSource.dangerous_keywords → ¬ occurs_in_any_case kw q) ∧
        n ≤ max_query_limit).
Proof. intros Hq _ Hn. by apply ValidatorMore.sql_accepts_exactly. Qed.

Lemma X17_sql_validator_accepts_exactly_witness :
  MySQLDataSource.validate_query 1000 [("query", VStr "  select * from updates ")] ()
  = Ret false ().
Proof.
  destruct (X17_sql_validator_accepts_exactly unit () 1000
              [("query", VStr "  select * from updates ")] "  select * from updates " 100
              eq_refl eq_refl eq_refl) as (b & Hb & _).
  rewrite Hb. vm_compute in Hb. symmetry. exact Hb.
Defined.
